(** * Verification of the Figma channel relay (websocket_proxy.py) and of
      the colour helper rgba_to_hex (figma_types.py).

    The relay keeps two module-level containers, [clients] (a set of open
    connections) and [channels] (a dict from channel key to a set of
    connections).  Every coroutine of the relay is embedded as a computation
    in a small monad that threads these two containers, may raise a Python
    exception, and records the observable effects (calls of [send] with
    their outcome, log records) in a trace.

    The outcome of [client.send] is an input of the model (an oracle per
    connection), and so is the outcome of [json.loads] on an inbound frame.

    A coroutine is suspended only inside [await client.send(...)] and
    between two frames.  The definitions of the first part run every
    coroutine with nobody else scheduled during its awaited sends; what the
    other connections do between two frames is a step of the transition
    system.  [Interleaved] gives the broadcast with the other handlers
    running during its awaited sends: there the loop of
    [broadcast_to_channel] is a loop over the live member set. *)

From Stdlib Require Import ZArith Floats HexadecimalString.
From stdpp Require Import gmap strings list fin_maps pretty.

Local Open Scope string_scope.
Local Open Scope list_scope.
Set Warnings "-register-all,-clear-no-such-hyp".
Set Default Proof Using "Type".

(** ** The relay *)

Module Relay.

(** A connection object.  Python hashes and compares it by identity. *)
Definition websocket := nat.

(** Keys of the [channels] dict.  The annotation says [str]; the handler
    passes whatever truthy hashable value the frame carries, so an integer
    (or [True], equal to [1] as a key) can be a key as well.  Floats are
    outside the JSON values modelled here. *)
Inductive chan :=
  | ChanStr (s : string)
  | ChanInt (z : Z)
  | ChanNone.

#[global] Instance chan_eq_dec : EqDecision chan.
Proof. solve_decision. Defined.

#[global] Instance chan_countable : Countable chan.
Proof.
  refine (inj_countable'
    (λ c, match c with
          | ChanStr s => inl s
          | ChanInt z => inr (Some z)
          | ChanNone => inr None
          end)
    (λ x, match x with
          | inl s => ChanStr s
          | inr (Some z) => ChanInt z
          | inr None => ChanNone
          end) _).
  by intros [].
Defined.

(** The values [json.loads] returns (without floats).  A dict is kept as
    the list of its items; [assoc_get] reads it. *)
Inductive json :=
  | JNull
  | JBool (b : bool)
  | JInt (z : Z)
  | JStr (s : string)
  | JArr (items : list json)
  | JObj (fields : list (string * json)).

Fixpoint assoc_get (k : string) (fields : list (string * json)) : option json :=
  match fields with
  | [] => None
  | (k', v) :: rest => if String.eqb k k' then Some v else assoc_get k rest
  end.

(** Python truthiness, as tested by [if channel:]. *)
Definition truthy (v : json) : bool :=
  match v with
  | JNull => false
  | JBool b => b
  | JInt z => negb (z =? 0)%Z
  | JStr s => negb (String.eqb s "")
  | JArr items => match items with [] => false | _ => true end
  | JObj fields => match fields with [] => false | _ => true end
  end.

(** The dict key a value stands for; a list or a dict is unhashable. *)
Definition chan_of_json (v : json) : option chan :=
  match v with
  | JNull => Some ChanNone
  | JBool b => Some (ChanInt (Z.b2z b))
  | JInt z => Some (ChanInt z)
  | JStr s => Some (ChanStr s)
  | JArr _ | JObj _ => None
  end.

(** [str(v)] inside an f-string.  Only scalars and empty containers reach
    the f-string of the handler (a non-empty list or dict raises at
    [channel in channels] first); the last two cases are placeholders. *)
Definition py_str (v : json) : string :=
  match v with
  | JNull => "None"
  | JBool true => "True"
  | JBool false => "False"
  | JInt z => pretty z
  | JStr s => s
  | JArr [] => "[]"
  | JObj [] => "{}"
  | JArr _ => "[...]"
  | JObj _ => "{...}"
  end.

Definition is_str (v : json) (s : string) : bool :=
  match v with
  | JStr t => String.eqb t s
  | _ => false
  end.

(** Exceptions below [Exception], as the [except] clauses of the relay
    tell them apart: ConnectionClosed, JSONDecodeError, and any other
    (AttributeError, TypeError, KeyError, RuntimeError, UnicodeDecodeError,
    ...). *)
Inductive exn :=
  | ConnectionClosed
  | JSONDecodeError
  | OtherException.

Inductive res (A : Type) :=
  | Ret (a : A)
  | Raise (e : exn).
Arguments Ret {A} a.
Arguments Raise {A} e.

(** Outcome of one call of [send] on a connection. *)
Inductive send_result :=
  | SendOk
  | SendClosed
  | SendError.

#[global] Instance send_result_eq_dec : EqDecision send_result.
Proof. solve_decision. Defined.

Inductive level := DEBUG | INFO | WARNING | ERROR.

(** One constructor per logging call of the source. *)
Inductive log_record :=
  | LogConnected (ws : websocket) (total : nat)
  | LogRemovedEmpty (c : chan)
  | LogDisconnected (ws : websocket) (total : nat)
  | LogJoined (ws : websocket) (c : chan) (size : nat)
  | LogNoChannel (c : chan)
  | LogBroadcastError (client : websocket)
  | LogBroadcasted (count : nat) (c : chan)
  | LogReceived (ws : websocket) (data : json)
  | LogJoinConfirm (c : chan)
  | LogDirect (data : json)
  | LogUnknownType (ws : websocket) (ty : json)
  | LogInvalidJSON (ws : websocket)
  | LogHandlerError (ws : websocket) (e : exn)
  | LogConnectionClosed (ws : websocket)
  | LogClientHandlerError (ws : websocket) (e : exn).

Definition level_of (r : log_record) : level :=
  match r with
  | LogConnected _ _ | LogRemovedEmpty _ | LogDisconnected _ _
  | LogJoined _ _ _ | LogJoinConfirm _ | LogConnectionClosed _ => INFO
  | LogNoChannel _ | LogUnknownType _ _ => WARNING
  | LogBroadcastError _ | LogInvalidJSON _ | LogHandlerError _ _
  | LogClientHandlerError _ _ => ERROR
  | LogBroadcasted _ _ | LogReceived _ _ | LogDirect _ => DEBUG
  end.

(** Observable effects: [Send to payload r] is the call
    [to.send(json.dumps(payload))] with outcome [r]. *)
Inductive event :=
  | Send (to : websocket) (payload : json) (r : send_result)
  | Log (r : log_record).

(** The two module-level containers. *)
Record broker := Broker {
  clients : gset websocket;
  channels : gmap chan (gset websocket)
}.

Definition empty_broker : broker := Broker ∅ ∅.

Definition oracle := websocket → send_result.

(** *** The monad *)

Definition M (A : Type) : Type := broker → res A * broker * list event.

Definition ret {A} (a : A) : M A := λ st, (Ret a, st, []).

Definition raise {A} (e : exn) : M A := λ st, (Raise e, st, []).

Definition bind {A B} (m : M A) (k : A → M B) : M B :=
  λ st,
    match m st with
    | (Ret a, st1, tr1) =>
        match k a st1 with
        | (r, st2, tr2) => (r, st2, tr1 ++ tr2)
        end
    | (Raise e, st1, tr1) => (Raise e, st1, tr1)
    end.

(** [try: m  except e: h e] *)
Definition try_except {A} (m : M A) (h : exn → M A) : M A :=
  λ st,
    match m st with
    | (Ret a, st1, tr1) => (Ret a, st1, tr1)
    | (Raise e, st1, tr1) =>
        match h e st1 with
        | (r, st2, tr2) => (r, st2, tr1 ++ tr2)
        end
    end.

(** [try: m  finally: f] *)
Definition try_finally {A} (m : M A) (f : M unit) : M A :=
  λ st,
    match m st with
    | (r, st1, tr1) =>
        match f st1 with
        | (Ret _, st2, tr2) => (r, st2, tr1 ++ tr2)
        | (Raise e, st2, tr2) => (Raise e, st2, tr1 ++ tr2)
        end
    end.

Definition get : M broker := λ st, (Ret st, st, []).
Definition put (st : broker) : M unit := λ _, (Ret tt, st, []).
Definition emit (e : event) : M unit := λ st, (Ret tt, st, [e]).
Definition log (r : log_record) : M unit := emit (Log r).

Notation "x <- m ;; k" := (bind m (λ x, k))
  (at level 100, m at next level, right associativity).
Notation "m ;; k" := (bind m (λ _, k))
  (at level 100, right associativity).

(** [await to.send(json.dumps(payload))] *)
Definition send (net : oracle) (to : websocket) (payload : json) : M unit :=
  emit (Send to payload (net to));;
  match net to with
  | SendOk => ret tt
  | SendClosed => raise ConnectionClosed
  | SendError => raise OtherException
  end.

(** Projections of a run. *)
Definition result_of {A} (x : res A * broker * list event) : res A := x.1.1.
Definition state_of {A} (x : res A * broker * list event) : broker := x.1.2.
Definition trace_of {A} (x : res A * broker * list event) : list event := x.2.

(** The calls of [send] in a trace, in order. *)
Definition sends (tr : list event) : list (websocket * json * send_result) :=
  omap (λ e, match e with
             | Send to p r => Some (to, p, r)
             | Log _ => None
             end) tr.

(** *** Channel registry *)

Definition register_client (ws : websocket) : M unit :=
  st <- get;;
  put (Broker ({[ws]} ∪ clients st) (channels st));;
  st <- get;;
  log (LogConnected ws (size (clients st))).

(** First loop of [unregister_client]: discard [ws] from every member set
    and collect the names whose set became (or was) empty. *)
Definition discard_everywhere (ws : websocket)
    (chs : gmap chan (gset websocket)) : gmap chan (gset websocket) :=
  (λ members, members ∖ {[ws]}) <$> chs.

Definition channels_to_remove (chs : gmap chan (gset websocket)) : list chan :=
  (filter (λ kv : chan * gset websocket, kv.2 = ∅) (map_to_list chs)).*1.

(** Second loop: [del channels[name]] with its log record. *)
Fixpoint remove_channels (names : list chan) : M unit :=
  match names with
  | [] => ret tt
  | name :: rest =>
      st <- get;;
      put (Broker (clients st) (delete name (channels st)));;
      log (LogRemovedEmpty name);;
      remove_channels rest
  end.

Definition unregister_client (ws : websocket) : M unit :=
  st <- get;;
  put (Broker (clients st ∖ {[ws]}) (channels st));;
  st <- get;;
  put (Broker (clients st) (discard_everywhere ws (channels st)));;
  st <- get;;
  remove_channels (channels_to_remove (channels st));;
  st <- get;;
  log (LogDisconnected ws (size (clients st))).

Definition join_channel (ws : websocket) (channel : chan) : M unit :=
  st <- get;;
  (match channels st !! channel with
   | None => put (Broker (clients st) (<[channel := ∅]> (channels st)))
   | Some _ => ret tt
   end);;
  st <- get;;
  put (Broker (clients st)
         (alter (λ members, {[ws]} ∪ members) channel (channels st)));;
  st <- get;;
  log (LogJoined ws channel (size (default ∅ (channels st !! channel)))).

(** *** Broadcast engine *)

(** The delivery loop over the members, when no other coroutine is
    scheduled during the awaited sends: the set [channels[channel]] then
    stays what it was when the loop started, and the loop is a walk over
    it.  ([Interleaved.delivery_pass] is the loop with the others running.)
    [acc] holds the two locals [disconnected] and [broadcast_count]. *)
Fixpoint delivery_pass (net : oracle) (message : json)
    (sender : option websocket) (members : list websocket)
    (acc : gset websocket * nat) : M (gset websocket * nat) :=
  match members with
  | [] => ret acc
  | client :: rest =>
      acc' <- (if decide (Some client = sender) then ret acc
               else
                 try_except
                   (send net client message;;
                    ret (acc.1, S acc.2))
                   (λ e, match e with
                         | ConnectionClosed => ret ({[client]} ∪ acc.1, acc.2)
                         | _ =>
                             log (LogBroadcastError client);;
                             ret ({[client]} ∪ acc.1, acc.2)
                         end));;
      delivery_pass net message sender rest acc'
  end.

(** The clean-up loop over [disconnected]. *)
Fixpoint cleanup (channel : chan) (disconnected : list websocket) : M unit :=
  match disconnected with
  | [] => ret tt
  | client :: rest =>
      st <- get;;
      put (Broker (clients st)
             (alter (λ members, members ∖ {[client]}) channel (channels st)));;
      st <- get;;
      put (Broker (clients st ∖ {[client]}) (channels st));;
      cleanup channel rest
  end.

Definition broadcast_to_channel (net : oracle) (channel : chan)
    (message : json) (sender : option websocket) : M unit :=
  st <- get;;
  match channels st !! channel with
  | None => log (LogNoChannel channel)
  | Some members =>
      acc <- delivery_pass net message sender (elements members) (∅, 0);;
      cleanup channel (elements acc.1);;
      if decide (0 < acc.2) then log (LogBroadcasted acc.2 channel)
      else ret tt
  end.

(** *** Broadcast engine, with the other handlers running

    [await client.send(...)] suspends the broadcasting coroutine; the
    handlers of the other connections run meanwhile and may change the two
    containers.  A schedule gives, for the send to each connection, its
    outcome and what the others do to the containers while it is awaited. *)

Record schedule := Schedule {
  outcome : websocket → send_result;
  meanwhile : websocket → broker → broker
}.

(** Nobody else runs. *)
Definition undisturbed (net : oracle) : schedule := Schedule net (λ _ st, st).

(** A schedule under which the others leave the containers alone. *)
Definition calm (sch : schedule) : Prop := ∀ w st, meanwhile sch w st = st.


(** The set object the loop iterates, read through its key.  A key is
    deleted only when its set is empty, so the object is empty once its key
    is gone.  (A set created anew under the same key while one send is
    awaited is read as the set iterated.) *)
Definition live_members (channel : chan) (st : broker) : gset websocket :=
  default ∅ (channels st !! channel).

Module Interleaved.

(** [await to.send(json.dumps(payload))]: the others run, then the call
    returns or raises. *)
Definition send (sch : schedule) (to : websocket) (payload : json) : M unit :=
  emit (Send to payload (outcome sch to));;
  st <- get;;
  put (meanwhile sch to st);;
  match outcome sch to with
  | SendOk => ret tt
  | SendClosed => raise ConnectionClosed
  | SendError => raise OtherException
  end.

(** The body of the delivery loop for one member. *)
Definition attempt (sch : schedule) (message : json)
    (sender : option websocket) (client : websocket)
    (acc : gset websocket * nat) : M (gset websocket * nat) :=
  if decide (Some client = sender) then ret acc
  else
    try_except
      (send sch client message;;
       ret (acc.1, S acc.2))
      (λ e, match e with
            | ConnectionClosed => ret ({[client]} ∪ acc.1, acc.2)
            | _ =>
                log (LogBroadcastError client);;
                ret ({[client]} ∪ acc.1, acc.2)
            end).

(** [for client in channels[channel]:] over the live set.  The set iterator
    remembers the size [used] the set had when the loop started and, each
    time it is asked for the next member (also the last time, when none is
    left), raises RuntimeError ("Set changed size during iteration") if the
    set has another size by then.  [pending] are the members not yet
    visited.  A member discarded meanwhile is not visited.  When the others
    change the set and restore its size, which of the new members the
    iterator still yields depends on the hash table; here none is. *)
Fixpoint delivery_pass (sch : schedule) (message : json)
    (sender : option websocket) (channel : chan) (used : nat)
    (pending : list websocket) (acc : gset websocket * nat) :
    M (gset websocket * nat) :=
  st <- get;;
  if decide (size (live_members channel st) = used) then
    match pending with
    | [] => ret acc
    | client :: rest =>
        if decide (client ∈ live_members channel st) then
          acc' <- attempt sch message sender client acc;;
          delivery_pass sch message sender channel used rest acc'
        else delivery_pass sch message sender channel used rest acc
    end
  else raise OtherException.

(** The clean-up loop; [channels[channel]] raises KeyError when the key is
    gone. *)
Fixpoint cleanup (channel : chan) (disconnected : list websocket) : M unit :=
  match disconnected with
  | [] => ret tt
  | client :: rest =>
      st <- get;;
      match channels st !! channel with
      | None => raise OtherException
      | Some _ =>
          put (Broker (clients st)
                 (alter (λ members, members ∖ {[client]}) channel
                    (channels st)));;
          st <- get;;
          put (Broker (clients st ∖ {[client]}) (channels st));;
          cleanup channel rest
      end
  end.

Definition broadcast_to_channel (sch : schedule) (channel : chan)
    (message : json) (sender : option websocket) : M unit :=
  st <- get;;
  match channels st !! channel with
  | None => log (LogNoChannel channel)
  | Some members =>
      acc <- delivery_pass sch message sender channel (size members)
               (elements members) (∅, 0);;
      cleanup channel (elements acc.1);;
      if decide (0 < acc.2) then log (LogBroadcasted acc.2 channel)
      else ret tt
  end.

End Interleaved.

(** *** Connection handler *)

(** [data.get(k)] and [data.get(k, d)]; a value that is not a dict has no
    [get] (AttributeError). *)
Definition py_get_default (data : json) (k : string) (d : json) : M json :=
  match data with
  | JObj fields => ret (default d (assoc_get k fields))
  | _ => raise OtherException
  end.

Definition py_get (data : json) (k : string) : M json :=
  py_get_default data k JNull.

(** [k in data] for a dict [data]. *)
Definition py_in (k : string) (data : json) : bool :=
  match data with
  | JObj fields => bool_decide (is_Some (assoc_get k fields))
  | _ => false
  end.

(** Using a value as a dict key: TypeError when it is unhashable. *)
Definition hash_key (v : json) : M chan :=
  match chan_of_json v with
  | Some c => ret c
  | None => raise OtherException
  end.

Definition lift {A} (r : res A) : M A :=
  match r with
  | Ret a => ret a
  | Raise e => raise e
  end.

Definition join_ack (channel : json) : json :=
  JObj [("type", JStr "system");
        ("channel", channel);
        ("message",
          JObj [("result",
            JObj [("status", JStr "joined"); ("channel", channel)])])].

Definition channel_required : json :=
  JObj [("type", JStr "error");
        ("message", JStr "Channel name is required")].

Definition not_joined (id channel : json) : json :=
  JObj [("id", id);
        ("error",
          JStr ("Channel '" +:+ py_str channel +:+ "' not found or not joined"))].

Definition invalid_json : json :=
  JObj [("error", JStr "Invalid JSON format")].

(** The body of the inner [try] once [json.loads] has returned [data]. *)
Definition dispatch (net : oracle) (ws : websocket) (data : json) : M unit :=
  log (LogReceived ws data);;
  ty <- py_get data "type";;
  if is_str ty "join" then
    channel <- py_get data "channel";;
    if truthy channel then
      c <- hash_key channel;;
      join_channel ws c;;
      send net ws (join_ack channel);;
      log (LogJoinConfirm c)
    else
      send net ws channel_required
  else if is_str ty "message" then
    channel <- py_get data "channel";;
    known <- (if truthy channel then
                c <- hash_key channel;;
                st <- get;;
                ret (if decide (is_Some (channels st !! c)) then Some c
                     else None)
              else ret None);;
    match known with
    | Some c => broadcast_to_channel net c data (Some ws)
    | None =>
        id <- py_get data "id";;
        send net ws (not_joined id channel)
    end
  else if py_in "id" data && py_in "message" data then
    log (LogDirect data)
  else
    ty <- py_get_default data "type" (JStr "no-type");;
    log (LogUnknownType ws ty).

(** One iteration of [async for message in websocket]; [loaded] is the
    outcome of [json.loads(message)]. *)
Definition handle_frame (net : oracle) (ws : websocket)
    (loaded : res json) : M unit :=
  try_except
    (data <- lift loaded;;
     dispatch net ws data)
    (λ e, match e with
          | JSONDecodeError =>
              log (LogInvalidJSON ws);;
              try_except (send net ws invalid_json) (λ _, ret tt)
          | _ => log (LogHandlerError ws e)
          end).

(** An inbound frame together with the behaviour of the transports while
    it is handled. *)
Record inbound := Inbound {
  loaded : res json;
  net : oracle
}.

Fixpoint receive_loop (ws : websocket) (frames : list inbound) : M unit :=
  match frames with
  | [] => ret tt
  | f :: rest =>
      handle_frame (net f) ws (loaded f);;
      receive_loop ws rest
  end.

(** How the message iterator of a connection finishes: the connection is
    closed normally and the loop ends; the iterator raises an exception
    below [Exception] (ConnectionClosed among them); or the handler task is
    cancelled while it waits for a frame, which raises
    asyncio.CancelledError, a BaseException that neither [except] clause of
    [handle_client] catches. *)
Inductive ending :=
  | IterationEnds
  | IterationRaises (e : exn)
  | IterationCancelled.

(** How [handle_client] finishes: it returns, or CancelledError leaves it
    after the [finally] clause has run. *)
Inductive finish :=
  | Returned
  | CancelledErrorRaised.

(** The two [except] clauses of [handle_client]. *)
Definition connection_log (ws : websocket) (e : exn) : list event :=
  match e with
  | ConnectionClosed => [Log (LogConnectionClosed ws)]
  | _ => [Log (LogClientHandlerError ws e)]
  end.

(** A whole connection. *)
Definition handle_client (ws : websocket) (frames : list inbound)
    (e : ending) (st : broker) : finish * broker * list event :=
  let '(_, st1, tr1) := register_client ws st in
  let '(r, st2, tr2) := receive_loop ws frames st1 in
  let '(fin, tr3) :=
    match r with
    | Raise x => (Returned, connection_log ws x)
    | Ret _ =>
        match e with
        | IterationEnds => (Returned, [])
        | IterationRaises x => (Returned, connection_log ws x)
        | IterationCancelled => (CancelledErrorRaised, [])
        end
    end in
  let '(_, st3, tr4) := unregister_client ws st2 in
  (fin, st3, tr1 ++ tr2 ++ tr3 ++ tr4).

(** *** The relay as a transition system

    Connections run concurrently; between two frames of one connection the
    other connections may act.  A server state records the two containers
    and the connections whose handler is inside its receive loop. *)

Record server := Server {
  state : broker;
  running : gset websocket
}.

Definition init : server := Server empty_broker ∅.

Inductive op :=
  | Connect (ws : websocket)
  | Frame (ws : websocket) (f : inbound)
  | Disconnect (ws : websocket).

(** A connection object that has just been created is referenced by no
    container. *)
Definition fresh (ws : websocket) (s : server) : Prop :=
  (ws ∉ running s) ∧ (ws ∉ clients (state s)) ∧
  (map_Forall (λ _ (members : gset websocket), ws ∉ members)
     (channels (state s))).

#[global] Instance fresh_dec ws s : Decision (fresh ws s).
Proof. unfold fresh. apply _. Defined.

Definition run_op (o : op) (s : server) : option server :=
  match o with
  | Connect ws =>
      if decide (fresh ws s) then
        Some (Server (state_of (register_client ws (state s)))
                ({[ws]} ∪ running s))
      else None
  | Frame ws f =>
      if decide (ws ∈ running s) then
        Some (Server (state_of (handle_frame (net f) ws (loaded f) (state s)))
                (running s))
      else None
  | Disconnect ws =>
      if decide (ws ∈ running s) then
        Some (Server (state_of (unregister_client ws (state s)))
                (running s ∖ {[ws]}))
      else None
  end.

Fixpoint run_ops (os : list op) (s : server) : option server :=
  match os with
  | [] => Some s
  | o :: rest =>
      match run_op o s with
      | Some s' => run_ops rest s'
      | None => None
      end
  end.

Definition step (s s' : server) : Prop := ∃ o, run_op o s = Some s'.

Definition reachable (s : server) : Prop := rtc step init s.

(** Membership of a connection in a channel. *)
Definition member (ws : websocket) (c : chan) (st : broker) : Prop :=
  ∃ members, channels st !! c = Some members ∧ ws ∈ members.

(** No entry of [channels] has an empty member set. *)
Definition no_empty_channel (st : broker) : Prop :=
  ∀ c members, channels st !! c = Some members → members ≠ ∅.

(** *** Specification-level descriptions of a broadcast *)

(** The members a broadcast addresses, in iteration order. *)
Definition targets (sender : option websocket) (l : list websocket) :
    list websocket :=
  filter (λ c, Some c ≠ sender) l.

(** What one delivery attempt leaves in the trace. *)
Definition attempt_events (net : oracle) (message : json) (c : websocket) :
    list event :=
  match net c with
  | SendOk => [Send c message SendOk]
  | SendClosed => [Send c message SendClosed]
  | SendError => [Send c message SendError; Log (LogBroadcastError c)]
  end.

(** The members whose delivery fails. *)
Definition failed (net : oracle) (sender : option websocket)
    (members : gset websocket) : gset websocket :=
  filter (λ c, Some c ≠ sender ∧ net c ≠ SendOk) members.

(** *** Connections, frames and states used in the examples *)

Definition room : chan := ChanStr "room1".

Definition all_ok : oracle := λ _, SendOk.

(** The transport of [w] is closed, the others work. *)
Definition closed_at (w : websocket) : oracle :=
  λ x, if decide (x = w) then SendClosed else SendOk.

Definition two_in_room : broker := Broker {[1; 2]} {[room := {[1; 2]}]}.

Definition hello : json :=
  JObj [("type", JStr "message"); ("channel", JStr "room1"); ("id", JStr "x")].

Definition three_in_room : broker :=
  Broker {[1; 2; 3]} {[room := {[1; 2; 3]}]}.

Definition join_frame (name : string) : inbound :=
  Inbound (Ret (JObj [("type", JStr "join"); ("channel", JStr name)])) all_ok.

Definition garbage : inbound := Inbound (Raise JSONDecodeError) (closed_at 1).

Definition message_frame (name : string) (net : oracle) : inbound :=
  Inbound
    (Ret (JObj [("type", JStr "message"); ("channel", JStr name);
                ("id", JStr "x")]))
    net.

(** Four connections, three of them in "room1". *)
Definition four_clients : broker :=
  Broker {[1; 2; 3; 4]} {[room := {[1; 2; 3]}]}.

(** While the send to [w] is awaited, the handler of [newcomer] handles a
    join frame for "room1"; nothing else happens. *)
Definition joins_during (w newcomer : websocket) (net : oracle) : schedule :=
  Schedule net
    (λ x st, if decide (x = w) then state_of (join_channel newcomer room st)
             else st).


End Relay.

(** ** The colour helper of figma_types.py *)

Module Color.

(** The values a colour component can hold: a number, a bool or [None]. *)
Inductive pyval :=
  | PNone
  | PBool (b : bool)
  | PInt (z : Z)
  | PFloat (f : float).

Inductive error :=
  | TypeError
  | ValueError
  | OverflowError.

(** The argument of [rgba_to_hex] is untyped: [None], a dict, or another
    object, of which only the truth value and the [get] method (when it has
    one, read as a lookup with default) matter. *)
Inductive color :=
  | CNone
  | CDict (d : gmap string pyval)
  | CObject (truth : bool) (get : option (gmap string pyval)).

(** [v * 255] *)
Definition mul255 (v : pyval) : error + pyval :=
  match v with
  | PNone => inl TypeError
  | PBool b => inr (PInt (Z.b2z b * 255))
  | PInt z => inr (PInt (z * 255))
  | PFloat f => inr (PFloat (f * 255)%float)
  end.

(** [int(f)] on a float: truncation towards zero. *)
Definition trunc (f : float) : error + Z :=
  match Prim2SF f with
  | S754_zero _ => inr 0%Z
  | S754_infinity _ => inl OverflowError
  | S754_nan => inl ValueError
  | S754_finite neg mant e =>
      let magnitude :=
        if (0 <=? e)%Z then (Z.pos mant * 2 ^ e)%Z
        else (Z.pos mant / 2 ^ (- e))%Z in
      inr (if neg then (- magnitude)%Z else magnitude)
  end.

(** [int(v)] *)
Definition py_int (v : pyval) : error + Z :=
  match v with
  | PNone => inl TypeError
  | PBool b => inr (Z.b2z b)
  | PInt z => inr z
  | PFloat f => trunc f
  end.

(** [color.get(k, 0)] *)
Definition get0 (d : gmap string pyval) (k : string) : pyval :=
  default (PInt 0) (d !! k).

Definition hex (n : N) : string :=
  NilZero.string_of_uint (N.to_hex_uint n).

(** [f"{n:02x}"] *)
Definition format_02x (n : Z) : string :=
  if (n <? 0)%Z then "-" +:+ hex (Z.to_N (- n))
  else if (n <? 16)%Z then "0" +:+ hex (Z.to_N n)
  else hex (Z.to_N n).

Definition hex_string (r g b : Z) : string :=
  "#" +:+ format_02x r +:+ format_02x g +:+ format_02x b.

Definition bind_err {A B} (x : error + A) (k : A → error + B) : error + B :=
  match x with
  | inl e => inl e
  | inr a => k a
  end.

(** [not color] *)
Definition falsy (c : color) : bool :=
  match c with
  | CNone => true
  | CDict d => bool_decide (d = ∅)
  | CObject truth _ => negb truth
  end.

(** One component in the dict branch and in the other branch. *)
Definition scaled (d : gmap string pyval) (k : string) : error + Z :=
  bind_err (mul255 (get0 d k)) py_int.

Definition unscaled (get : option (gmap string pyval)) (k : string) :
    error + Z :=
  match get with
  | Some d => py_int (get0 d k)
  | None => inr 0%Z
  end.

Definition rgba_to_hex (c : color) : error + string :=
  if falsy c then inr "#000000"
  else
    match c with
    | CDict d =>
        bind_err (scaled d "r") (λ r,
        bind_err (scaled d "g") (λ g,
        bind_err (scaled d "b") (λ b,
        inr (hex_string r g b))))
    | CObject _ get =>
        bind_err (unscaled get "r") (λ r,
        bind_err (unscaled get "g") (λ g,
        bind_err (unscaled get "b") (λ b,
        inr (hex_string r g b))))
    | CNone => inr "#000000"
    end.

(** Reading a colour string back: the value of the [i]-th two-digit
    hexadecimal field after the leading '#'. *)
Definition field (s : string) (i : nat) : option N :=
  N.of_hex_uint <$> NilZero.uint_of_string (String.substring (1 + 2 * i) 2 s).

(** Two colours that differ in alpha and in an extra field. *)

Definition orange : gmap string pyval :=
  {["r" := PFloat 1; "g" := PFloat 0.5; "b" := PFloat 0; "a" := PFloat 1]}.

Definition orange_faint : gmap string pyval :=
  {["r" := PFloat 1; "g" := PFloat 0.5; "b" := PFloat 0; "a" := PFloat 0.25;
    "name" := PNone]}.

End Color.

Import Relay.

(** ** Runs of the registry operations *)

Section runs.
Implicit Types (st : broker) (ws client : websocket) (channel : chan).
Implicit Types (net : oracle) (message : json) (sender : option websocket).

Lemma join_channel_run ws channel st :
  join_channel ws channel st =
    (Ret tt,
     Broker (clients st)
       (<[channel := {[ws]} ∪ default ∅ (channels st !! channel)]> (channels st)),
     [Log (LogJoined ws channel
             (size ({[ws]} ∪ default ∅ (channels st !! channel))))]).
Proof.
  unfold join_channel, bind, get, put, ret, log, emit; simpl.
  destruct (channels st !! channel) as [members|] eqn:E; simpl.
  - rewrite lookup_alter_eq, E. simpl.
    do 3 f_equal.
    apply map_eq; intros k. destruct (decide (channel = k)) as [<-|Hne].
    + by rewrite lookup_alter_eq, lookup_insert_eq, E.
    + by rewrite lookup_alter_ne, lookup_insert_ne.
  - rewrite lookup_alter_eq, lookup_insert_eq. simpl.
    do 3 f_equal.
    by rewrite alter_insert_eq.
Qed.

Lemma cleanup_run channel (l : list websocket) st :
  cleanup channel l st =
    (Ret tt,
     Broker (clients st ∖ list_to_set l)
       (alter (λ members, members ∖ list_to_set l) channel (channels st)),
     []).
Proof.
  revert st. induction l as [|client rest IH]; intros st.
  - simpl. unfold ret. do 2 f_equal. destruct st as [cl chs]; simpl.
    f_equal; [set_solver|].
    symmetry. apply alter_id. intros; set_solver.
  - simpl. unfold bind, get, put; simpl. rewrite IH. simpl.
    do 3 f_equal; [set_solver|].
    rewrite alter_alter_eq. apply alter_ext. intros; simpl; set_solver.
Qed.

Lemma run_eq {A B} (a a' : A) (b b' : B) st (tr tr' : list event) :
  a = a' → b = b' → tr = tr' →
  (Ret (a, b), st, tr) = (Ret (a', b'), st, tr').
Proof. by intros -> -> ->. Qed.

Lemma delivery_pass_run net message sender (l : list websocket)
    (acc : gset websocket * nat) st :
  delivery_pass net message sender l acc st =
    (Ret (list_to_set (filter (λ c, net c ≠ SendOk) (targets sender l)) ∪ acc.1,
          acc.2 + length (filter (λ c, net c = SendOk) (targets sender l))),
     st,
     targets sender l ≫= attempt_events net message).
Proof.
  revert acc st. induction l as [|client rest IH]; intros [dis n] st.
  - simpl. unfold ret. repeat f_equal; [set_solver|lia].
  - simpl. unfold targets. rewrite filter_cons.
    destruct (decide (Some client = sender)) as [Heq|Hne].
    + rewrite decide_False by (by intros ?).
      unfold bind at 1. unfold ret at 1. rewrite IH. done.
    + rewrite decide_True by done.
      unfold bind at 1. unfold try_except, send, bind, emit, ret, raise, log.
      rewrite !filter_cons.
      change (filter (λ c, Some c ≠ sender) rest) with (targets sender rest).
      destruct (net client) eqn:Hn; simpl; rewrite IH; simpl;
        unfold attempt_events; rewrite Hn; simpl;
        (apply run_eq; [set_solver | lia | done]).
Qed.

Lemma failed_as_list net sender (members : gset websocket) :
  list_to_set (filter (λ c, net c ≠ SendOk) (targets sender (elements members)))
    = failed net sender members.
Proof.
  apply set_eq; intros x. unfold failed, targets.
  rewrite elem_of_list_to_set, !list_elem_of_filter, elem_of_elements,
    elem_of_filter.
  tauto.
Qed.

Lemma alter_discard_insert (chs : gmap chan (gset websocket)) channel
    (members X Y : gset websocket) :
  chs !! channel = Some members → X = Y →
  alter (λ m, m ∖ X) channel chs = <[channel := members ∖ Y]> chs.
Proof.
  intros Hch ->. apply map_eq; intros k.
  destruct (decide (channel = k)) as [<-|Hne].
  - by rewrite lookup_alter_eq, lookup_insert_eq, Hch.
  - by rewrite lookup_alter_ne, lookup_insert_ne.
Qed.

Lemma broadcast_run net channel message sender st members :
  channels st !! channel = Some members →
  broadcast_to_channel net channel message sender st =
    (Ret tt,
     Broker (clients st ∖ failed net sender members)
       (<[channel := members ∖ failed net sender members]> (channels st)),
     (targets sender (elements members) ≫= attempt_events net message) ++
     (let n := length (filter (λ c, net c = SendOk)
                         (targets sender (elements members))) in
      if decide (0 < n) then [Log (LogBroadcasted n channel)] else [])).
Proof.
  intros Hch. unfold broadcast_to_channel.
  unfold bind at 1. unfold get at 1. simpl. rewrite Hch.
  unfold bind at 1. rewrite delivery_pass_run. simpl.
  unfold bind at 1. rewrite cleanup_run. simpl.
  rewrite failed_as_list.
  rewrite (alter_discard_insert _ _ members _ (failed net sender members))
    by (done || by rewrite union_empty_r_L, list_to_set_elements_L).
  rewrite union_empty_r_L, list_to_set_elements_L.
  case_decide; simpl; reflexivity.
Qed.

Lemma sends_app (tr1 tr2 : list event) :
  sends (tr1 ++ tr2) = sends tr1 ++ sends tr2.
Proof. apply omap_app. Qed.

Lemma sends_attempts net message (l : list websocket) :
  sends (l ≫= attempt_events net message) = (λ c, (c, message, net c)) <$> l.
Proof.
  induction l as [|c l IH]; [done|].
  rewrite bind_cons, sends_app, IH, fmap_cons.
  unfold attempt_events. by destruct (net c).
Qed.

Lemma sends_broadcast net channel message sender st members :
  channels st !! channel = Some members →
  sends (trace_of (broadcast_to_channel net channel message sender st))
    = (λ c, (c, message, net c)) <$> targets sender (elements members).
Proof.
  intros Hch. rewrite (broadcast_run _ _ _ _ _ _ Hch). unfold trace_of. simpl.
  rewrite sends_app, sends_attempts.
  case_decide; simpl; by rewrite app_nil_r.
Qed.


Lemma elem_of_targets sender (members : gset websocket) client :
  client ∈ targets sender (elements members)
    ↔ client ∈ members ∧ Some client ≠ sender.
Proof.
  unfold targets. rewrite list_elem_of_filter, elem_of_elements. tauto.
Qed.


End runs.

(** ** The broadcast with the other handlers running *)

Section interleaved_runs.
Implicit Types (st : broker) (ws client : websocket) (channel : chan).
Implicit Types (sch : schedule) (message : json) (sender : option websocket).

Lemma interleaved_attempt_calm sch message sender client
    (acc : gset websocket * nat) st :
  calm sch →
  Interleaved.attempt sch message sender client acc st =
    (if decide (Some client = sender) then (Ret acc, st, [])
     else
       (Ret (match outcome sch client with
             | SendOk => (acc.1, S acc.2)
             | _ => ({[client]} ∪ acc.1, acc.2)
             end),
        st, attempt_events (outcome sch) message client)).
Proof.
  intros Hcalm. unfold Interleaved.attempt. case_decide; [done|].
  unfold try_except, Interleaved.send, bind, get, put, emit, ret, raise, log,
    attempt_events.
  simpl. rewrite Hcalm. destruct (outcome sch client); reflexivity.
Qed.

Lemma interleaved_delivery_pass_calm sch message sender channel
    (members : gset websocket) (l : list websocket)
    (acc : gset websocket * nat) st :
  calm sch →
  channels st !! channel = Some members →
  (∀ c, c ∈ l → c ∈ members) →
  Interleaved.delivery_pass sch message sender channel (size members) l acc st
    = delivery_pass (outcome sch) message sender l acc st.
Proof.
  intros Hcalm Hch. revert acc.
  assert (size (live_members channel st) = size members) as Hsize
    by (unfold live_members; by rewrite Hch).
  induction l as [|client rest IH]; intros acc Hsub.
  - cbn [Interleaved.delivery_pass delivery_pass]. unfold bind, get.
    by rewrite decide_True.
  - rewrite delivery_pass_run.
    cbn [Interleaved.delivery_pass]. unfold bind at 1. unfold get at 1.
    rewrite decide_True by done.
    rewrite decide_True
      by (unfold live_members; rewrite Hch; apply Hsub, list_elem_of_here).
    unfold bind at 1. rewrite interleaved_attempt_calm by done.
    unfold targets. rewrite filter_cons.
    destruct (decide (Some client = sender)) as [Heq|Hne].
    + rewrite decide_False by (by intros ?).
      rewrite IH by (intros c Hc; apply Hsub; by right).
      rewrite delivery_pass_run. done.
    + rewrite decide_True by done.
      rewrite IH by (intros c Hc; apply Hsub; by right).
      rewrite delivery_pass_run. rewrite !filter_cons.
      change (filter (λ c, Some c ≠ sender) rest) with (targets sender rest).
      destruct (outcome sch client) eqn:Hn; simpl;
        unfold attempt_events; rewrite Hn; simpl;
        (apply run_eq; [set_solver | lia | done]).
Qed.

Lemma interleaved_cleanup_present channel (l : list websocket) st :
  is_Some (channels st !! channel) →
  Interleaved.cleanup channel l st = cleanup channel l st.
Proof.
  revert st. induction l as [|client rest IH]; intros st Hsome; [done|].
  cbn [Interleaved.cleanup cleanup]. unfold bind at 1 3. unfold get at 1 3.
  destruct Hsome as [m Hm]. rewrite Hm.
  unfold bind, get, put. simpl. rewrite IH; [done|].
  simpl. rewrite lookup_alter_eq, Hm. by eexists.
Qed.




(** Under a calm schedule the interleaved broadcast is the broadcast of
    the first part. *)
Lemma interleaved_broadcast_calm sch channel message sender st :
  calm sch →
  Interleaved.broadcast_to_channel sch channel message sender st
    = broadcast_to_channel (outcome sch) channel message sender st.
Proof.
  intros Hcalm.
  destruct (channels st !! channel) as [members|] eqn:Hch.
  - rewrite (broadcast_run _ _ _ _ _ _ Hch).
    unfold Interleaved.broadcast_to_channel.
    unfold bind at 1. unfold get at 1. simpl. rewrite Hch.
    unfold bind at 1.
    rewrite (interleaved_delivery_pass_calm _ _ _ _ members)
      by (done || (intros c Hc; by apply elem_of_elements)).
    rewrite delivery_pass_run. simpl.
    unfold bind at 1.
    rewrite interleaved_cleanup_present by (by eexists).
    rewrite cleanup_run. simpl.
    rewrite failed_as_list.
    rewrite (alter_discard_insert _ _ members _
               (failed (outcome sch) sender members))
      by (done || by rewrite union_empty_r_L, list_to_set_elements_L).
    rewrite union_empty_r_L, list_to_set_elements_L.
    case_decide; simpl; reflexivity.
  - unfold Interleaved.broadcast_to_channel, broadcast_to_channel, bind, get.
    simpl. by rewrite Hch.
Qed.

End interleaved_runs.

(** ** Broadcast engine *)





(** C7: broadcasting to a channel that is not a key of [channels] sends
    nothing, raises nothing and changes nothing; the only effect is one log
    record of level WARNING. *)
Theorem broadcast_unknown_channel_noop
    (st : broker) (channel : chan) (message : json)
    (sender : option websocket) (net : oracle) :
  channels st !! channel = None →
  broadcast_to_channel net channel message sender st
    = (Ret tt, st, [Log (LogNoChannel channel)]) ∧
  sends (trace_of (broadcast_to_channel net channel message sender st)) = [] ∧
  level_of (LogNoChannel channel) = WARNING.
Proof.
  intros Hch. unfold broadcast_to_channel, bind, get, log, emit, trace_of.
  simpl. rewrite Hch. done.
Qed.

Lemma broadcast_unknown_channel_noop_witness :
  broadcast_to_channel all_ok (ChanStr "nowhere") hello (Some 1) two_in_room
    = (Ret tt, two_in_room, [Log (LogNoChannel (ChanStr "nowhere"))]) ∧
  sends (trace_of (broadcast_to_channel all_ok (ChanStr "nowhere") hello
                     (Some 1) two_in_room)) = [] ∧
  level_of (LogNoChannel (ChanStr "nowhere")) = WARNING.
Proof.
  apply (broadcast_unknown_channel_noop two_in_room (ChanStr "nowhere") hello
           (Some 1) all_ok).
  vm_compute. reflexivity.
Defined.

(** ** Channel registry *)

(** C8: joining the same channel twice in succession leaves [clients] and
    [channels] exactly as joining once does. *)
Theorem join_channel_idempotent (ws : websocket) (channel : chan) (st : broker) :
  state_of (bind (join_channel ws channel) (λ _, join_channel ws channel) st)
    = state_of (join_channel ws channel st) ∧
  state_of (join_channel ws channel (state_of (join_channel ws channel st)))
    = state_of (join_channel ws channel st).
Proof.
  unfold bind, state_of. repeat (rewrite join_channel_run; simpl).
  rewrite lookup_insert_eq, insert_insert_eq. simpl.
  split; f_equal; f_equal; set_solver.
Qed.

(** *** Runs of [unregister_client] *)

Section unregister.
Implicit Types (st : broker) (ws : websocket) (channel : chan).

Lemma remove_channels_run (names : list chan) st :
  remove_channels names st =
    (Ret tt,
     Broker (clients st) (foldl (λ chs name, delete name chs) (channels st) names),
     (λ name, Log (LogRemovedEmpty name)) <$> names).
Proof.
  revert st. induction names as [|name rest IH]; intros st.
  - by destruct st.
  - simpl. unfold bind, get, put, log, emit. simpl. by rewrite IH.
Qed.

Lemma lookup_foldl_delete (names : list chan)
    (chs : gmap chan (gset websocket)) channel :
  foldl (λ chs name, delete name chs) chs names !! channel
    = if decide (channel ∈ names) then None else chs !! channel.
Proof.
  revert chs. induction names as [|name rest IH]; intros chs; cbn [foldl].
  - rewrite decide_False; [done|]. apply not_elem_of_nil.
  - rewrite IH. destruct (decide (channel = name)) as [->|Hne].
    + rewrite lookup_delete_eq.
      rewrite (decide_True (P := name ∈ name :: rest)) by apply list_elem_of_here.
      by case_decide.
    + rewrite lookup_delete_ne by done.
      destruct (decide (channel ∈ rest)) as [Hin|Hnin].
      * rewrite decide_True; [done|]. by apply list_elem_of_further.
      * rewrite decide_False; [done|].
        intros Hin. apply elem_of_cons in Hin as [?|?]; done.
Qed.

Lemma elem_of_channels_to_remove (chs : gmap chan (gset websocket)) channel :
  channel ∈ channels_to_remove chs ↔ chs !! channel = Some ∅.
Proof.
  unfold channels_to_remove. rewrite list_elem_of_fmap. split.
  - intros ([k m] & -> & Hin). apply list_elem_of_filter in Hin as [He Hin].
    simpl in *. subst m. by apply elem_of_map_to_list in Hin.
  - intros Hl. exists (channel, ∅). split; [done|].
    apply list_elem_of_filter. split; [done|]. by apply elem_of_map_to_list.
Qed.

Lemma unregister_client_state ws st :
  clients (state_of (unregister_client ws st)) = clients st ∖ {[ws]} ∧
  ∀ channel,
    channels (state_of (unregister_client ws st)) !! channel
      = match channels st !! channel with
        | Some members =>
            if decide (members ∖ {[ws]} = ∅) then None
            else Some (members ∖ {[ws]})
        | None => None
        end.
Proof.
  unfold unregister_client, bind, get, put, log, emit, state_of. simpl.
  rewrite remove_channels_run. simpl. split; [done|].
  intros channel. rewrite lookup_foldl_delete.
  unfold discard_everywhere.
  destruct (decide (channel ∈ _)) as [Hin|Hnin].
  - apply elem_of_channels_to_remove in Hin.
    rewrite lookup_fmap in Hin.
    destruct (channels st !! channel) as [members|]; [|done].
    simpl in Hin. injection Hin as Hin. by rewrite decide_True.
  - rewrite elem_of_channels_to_remove in Hnin.
    rewrite lookup_fmap in Hnin |- *.
    destruct (channels st !! channel) as [members|]; [|done].
    simpl in *. rewrite decide_False; [done|]. congruence.
Qed.

(** Of the three operations, [unregister_client] and [join_channel] keep
    [channels] free of empty member sets. *)
Lemma unregister_client_no_empty ws st :
  no_empty_channel (state_of (unregister_client ws st)).
Proof.
  intros c members Hl.
  destruct (unregister_client_state ws st) as [_ Hch]. rewrite Hch in Hl.
  destruct (channels st !! c) as [m|]; [|done].
  case_decide; [done|]. by injection Hl as <-.
Qed.

Lemma join_channel_no_empty ws channel st :
  no_empty_channel st → no_empty_channel (state_of (join_channel ws channel st)).
Proof.
  intros Hst c members. rewrite join_channel_run. unfold state_of. simpl.
  destruct (decide (channel = c)) as [->|Hne].
  - rewrite lookup_insert_eq. intros [= <-]. set_solver.
  - rewrite lookup_insert_ne by done. apply Hst.
Qed.

Lemma run_ops_rtc (os : list op) (s s' : server) :
  run_ops os s = Some s' → rtc step s s'.
Proof.
  revert s. induction os as [|o os IH]; intros s; simpl.
  - intros [= ->]. constructor.
  - destruct (run_op o s) as [s1|] eqn:E; [|done].
    intros Hrest. eapply rtc_l; [by exists o|]. by apply IH.
Qed.

End unregister.

(** C4 (as the code has it): a connection can be a member of several
    channels at once.  [join_channel] makes it a member of the named
    channel and leaves [clients] and the member set of every other channel
    as they were, so earlier memberships stay; [unregister_client] removes
    it from every channel. *)
Theorem join_channel_keeps_other_memberships
    (ws : websocket) (channel : chan) (st : broker) :
  let st' := state_of (join_channel ws channel st) in
  member ws channel st' ∧
  clients st' = clients st ∧
  (∀ c, c ≠ channel → channels st' !! c = channels st !! c) ∧
  (∀ w c, member w c st → member w c st') ∧
  (∀ c, ¬ member ws c (state_of (unregister_client ws st))).
Proof.
  intros st'. subst st'. rewrite join_channel_run. unfold state_of, member. simpl.
  repeat split.
  - eexists. rewrite lookup_insert_eq. split; [done|]. set_solver.
  - intros c Hne. by rewrite lookup_insert_ne.
  - intros w c (members & Hl & Hin).
    destruct (decide (channel = c)) as [->|Hne].
    + eexists. rewrite lookup_insert_eq. split; [done|].
      rewrite Hl. simpl. set_solver.
    + exists members. by rewrite lookup_insert_ne.
  - intros c (members & Hl & Hin).
    destruct (unregister_client_state ws st) as [_ Hch].
    unfold state_of in Hch. rewrite Hch in Hl.
    destruct (channels st !! c) as [m|]; [|done].
    case_decide; [done|]. injection Hl as <-. set_solver.
Qed.

(** C4, counterexample: after joining "room1" and then "room2", connection
    1 is a member of both. *)
Lemma member_of_two_channels :
  ¬ (∀ s, reachable s →
       ∀ ws c1 c2, member ws c1 (state s) → member ws c2 (state s) → c1 = c2).
Proof.
  intros Hclaim.
  set (s := Server (Broker {[1]} {[ChanStr "room1" := {[1]};
                                   ChanStr "room2" := {[1]}]}) {[1]}).
  assert (reachable s) as Hs.
  { apply (run_ops_rtc [Connect 1; Frame 1 (join_frame "room1");
                        Frame 1 (join_frame "room2")]).
    vm_compute. reflexivity. }
  assert (ChanStr "room1" = ChanStr "room2") as Heq; [|discriminate Heq].
  apply (Hclaim s Hs 1); eexists; (split; [vm_compute; reflexivity|set_solver]).
Qed.

(** ** Connection handler *)

(** C6 (as the code has it): a frame on which [json.loads] raises
    JSONDecodeError makes the handler log the error and send one error
    reply, to the sender of the frame only; no exception leaves the
    iteration, [clients] and [channels] are unchanged, and the receive loop
    goes on with the next frame (whether or not the reply could be
    delivered). *)
Theorem malformed_frame_error_reply
    (ws : websocket) (f : inbound) (rest : list inbound) (st : broker) :
  loaded f = Raise JSONDecodeError →
  handle_frame (net f) ws (loaded f) st
    = (Ret tt, st, [Log (LogInvalidJSON ws); Send ws invalid_json (net f ws)]) ∧
  receive_loop ws (f :: rest) st
    = (result_of (receive_loop ws rest st),
       state_of (receive_loop ws rest st),
       [Log (LogInvalidJSON ws); Send ws invalid_json (net f ws)]
         ++ trace_of (receive_loop ws rest st)).
Proof.
  intros Hbad.
  assert (handle_frame (net f) ws (loaded f) st
          = (Ret tt, st,
             [Log (LogInvalidJSON ws); Send ws invalid_json (net f ws)])) as Hone.
  { rewrite Hbad.
    unfold handle_frame, try_except, bind, lift, raise, log, send, emit, ret.
    simpl. by destruct (net f ws). }
  split; [done|].
  cbn [receive_loop]. unfold bind at 1. rewrite Hone.
  unfold result_of, state_of, trace_of.
  by destruct (receive_loop ws rest st) as [[r st'] tr].
Qed.

Lemma malformed_frame_error_reply_witness :
  handle_frame (net garbage) 1 (loaded garbage) two_in_room
    = (Ret tt, two_in_room,
       [Log (LogInvalidJSON 1); Send 1 invalid_json (net garbage 1)]) ∧
  receive_loop 1 [garbage; join_frame "room2"] two_in_room
    = (result_of (receive_loop 1 [join_frame "room2"] two_in_room),
       state_of (receive_loop 1 [join_frame "room2"] two_in_room),
       [Log (LogInvalidJSON 1); Send 1 invalid_json (net garbage 1)]
         ++ trace_of (receive_loop 1 [join_frame "room2"] two_in_room)).
Proof.
  apply (malformed_frame_error_reply 1 garbage [join_frame "room2"] two_in_room).
  reflexivity.
Defined.

(** C6, counterexample: not every frame that cannot be parsed gets the
    reply.  On a binary frame that is not valid UTF-8, [json.loads] raises
    UnicodeDecodeError, which is not a JSONDecodeError: the frame falls to
    the [except Exception] clause, is logged, and nothing is sent. *)
Lemma unparseable_frame_without_reply :
  ¬ (∀ (net : oracle) (ws : websocket) (loaded : res json) (st : broker),
       (∀ data, loaded ≠ Ret data) →
       ∃ reply r,
         sends (trace_of (handle_frame net ws loaded st)) = [(ws, reply, r)]).
Proof.
  intros Hclaim.
  destruct (Hclaim all_ok 1 (Raise OtherException) two_in_room)
    as (reply & r & Hsends); [done|].
  vm_compute in Hsends. discriminate Hsends.
Qed.

(** The guard of the "message" branch as the code has it: a frame for a
    channel that is not a key of [channels] is answered by an error reply
    to its sender and changes nothing; a frame for a channel that is a key
    is handed to [broadcast_to_channel], whoever sent it. *)
Lemma message_for_unknown_channel
    (net : oracle) (ws : websocket) (fields : list (string * json))
    (name : string) (st : broker) :
  assoc_get "type" fields = Some (JStr "message") →
  assoc_get "channel" fields = Some (JStr name) →
  name ≠ "" →
  channels st !! ChanStr name = None →
  let run := handle_frame net ws (Ret (JObj fields)) st in
  result_of run = Ret tt ∧
  state_of run = st ∧
  sends (trace_of run)
    = [(ws, not_joined (default JNull (assoc_get "id" fields)) (JStr name),
        net ws)].
Proof.
  intros Hty Hch Hname Hnone run. subst run.
  apply String.eqb_neq in Hname.
  unfold handle_frame, try_except, dispatch, bind, lift, ret, log, emit,
    py_get, py_get_default, hash_key, get, send, raise,
    result_of, state_of, trace_of.
  simpl. rewrite Hty, Hch. simpl. rewrite Hname. simpl. rewrite Hnone. simpl.
  by destruct (net ws).
Qed.

Lemma message_for_known_channel
    (net : oracle) (ws : websocket) (fields : list (string * json))
    (name : string) (members : gset websocket) (st : broker) :
  assoc_get "type" fields = Some (JStr "message") →
  assoc_get "channel" fields = Some (JStr name) →
  name ≠ "" →
  channels st !! ChanStr name = Some members →
  let run := handle_frame net ws (Ret (JObj fields)) st in
  let cast := broadcast_to_channel net (ChanStr name) (JObj fields) (Some ws) st in
  result_of run = Ret tt ∧
  state_of run = state_of cast ∧
  sends (trace_of run) = sends (trace_of cast).
Proof.
  intros Hty Hch Hname Hsome run cast. subst run cast.
  apply String.eqb_neq in Hname.
  unfold handle_frame, try_except, dispatch, bind, lift, ret, log, emit,
    py_get, py_get_default, hash_key, get, raise,
    result_of, state_of, trace_of.
  cbn -[broadcast_to_channel]. rewrite Hty, Hch.
  cbn -[broadcast_to_channel]. rewrite Hname.
  cbn -[broadcast_to_channel]. rewrite Hsome.
  rewrite decide_True by done.
  rewrite (broadcast_run net _ (JObj fields) (Some ws) _ _ Hsome).
  cbn. by rewrite sends_app.
Qed.

(** C3, on the code: connection 1 has not joined "room1" (only connection 2
    has), yet its frame for "room1" is broadcast to connection 2, and
    connection 1 gets no error reply. *)
Theorem message_from_non_member_is_broadcast :
  let s := Server (Broker {[1; 2]} {[room := {[2]}]}) {[1; 2]} in
  let f := message_frame "room1" all_ok in
  reachable s ∧
  ¬ member 1 room (state s) ∧
  sends (trace_of (handle_frame (net f) 1 (loaded f) (state s)))
    = [(2, hello, SendOk)].
Proof.
  intros s f. split; [|split].
  - apply (run_ops_rtc [Connect 1; Connect 2; Frame 2 (join_frame "room1")]).
    vm_compute. reflexivity.
  - intros (members & Hl & Hin).
    assert (channels (state s) !! room = Some {[2]}) as Hroom
      by (vm_compute; reflexivity).
    rewrite Hroom in Hl. injection Hl as <-. set_solver.
  - vm_compute. reflexivity.
Qed.

(** C1, on the code: the only member of "room1" has a broken transport
    when a message for the channel comes in; the clean-up after the
    delivery pass empties the member set and the entry stays in
    [channels].  The same happens when [broadcast_to_channel] is called
    without a sender. *)
Theorem broadcast_leaves_empty_channel :
  let s := Server (Broker {[1]} {[room := ∅]}) {[1; 2]} in
  run_ops [Connect 1; Connect 2; Frame 2 (join_frame "room1");
           Frame 1 (message_frame "room1" (closed_at 2))] init = Some s ∧
  reachable s ∧
  channels (state s) !! room = Some ∅ ∧
  channels (state_of (broadcast_to_channel (closed_at 2) room hello None
                        (Broker {[2]} {[room := {[2]}]}))) !! room = Some ∅.
Proof.
  intros s.
  assert (run_ops [Connect 1; Connect 2; Frame 2 (join_frame "room1");
                   Frame 1 (message_frame "room1" (closed_at 2))] init = Some s)
    as Hrun by (vm_compute; reflexivity).
  split; [done|]. split; [by eapply run_ops_rtc|].
  split; vm_compute; reflexivity.
Qed.

(** C9, on the code: connection 2 is a member of "room1" and "room2"; a
    broadcast to "room1" fails on it; the clean-up removes it from "room1"
    and from [clients], and it stays a member of "room2". *)
Theorem failed_member_stays_in_other_channel :
  let s := Server (Broker {[1]} {[room := {[1]}; ChanStr "room2" := {[2]}]})
             {[1; 2]} in
  run_ops [Connect 1; Connect 2;
           Frame 2 (join_frame "room1"); Frame 2 (join_frame "room2");
           Frame 1 (join_frame "room1");
           Frame 1 (message_frame "room1" (closed_at 2))] init = Some s ∧
  reachable s ∧
  member 2 (ChanStr "room2") (state s) ∧
  2 ∉ clients (state s).
Proof.
  intros s.
  assert (run_ops [Connect 1; Connect 2;
                   Frame 2 (join_frame "room1"); Frame 2 (join_frame "room2");
                   Frame 1 (join_frame "room1");
                   Frame 1 (message_frame "room1" (closed_at 2))] init = Some s)
    as Hrun by (vm_compute; reflexivity).
  split; [done|]. split; [by eapply run_ops_rtc|]. split.
  - exists {[2]}. split; [vm_compute; reflexivity|set_solver].
  - simpl. set_solver.
Qed.

(** C2, on the code: connections 1, 2 and 3 are in "room1" and every
    transport works.  Connection 1 broadcasts; while the first send (to
    connection 2) is awaited, the handler of connection 4 joins "room1".
    The loop over the live set then raises RuntimeError: connection 3, a
    member other than the sender, is never addressed. *)
Theorem broadcast_aborted_by_join_during_send :
  let st := four_clients in
  let sch := joins_during 2 4 all_ok in
  let run := Interleaved.broadcast_to_channel sch room hello (Some 1) st in
  reachable (Server st {[1; 2; 3; 4]}) ∧
  member 3 room st ∧
  result_of run = Raise OtherException ∧
  sends (trace_of run) = [(2, hello, SendOk)] ∧
  state_of run = state_of (join_channel 4 room st).
Proof.
  intros st sch run. split; [|split; [|split; [|split]]].
  - apply (run_ops_rtc [Connect 1; Connect 2; Connect 3; Connect 4;
                        Frame 1 (join_frame "room1");
                        Frame 2 (join_frame "room1");
                        Frame 3 (join_frame "room1")]).
    vm_compute. reflexivity.
  - exists {[1; 2; 3]}. split; [vm_compute; reflexivity|set_solver].
  - vm_compute. reflexivity.
  - vm_compute. reflexivity.
  - vm_compute. reflexivity.
Qed.

(** C5, on the code: the same run with the transport of connection 2
    broken.  The delivery to connection 2 fails; connection 4 joins while
    that send is awaited; the loop raises RuntimeError, so connection 3 is
    not attempted and the clean-up is never reached: connection 2 stays in
    the channel's member set and in [clients]. *)
Theorem failed_member_kept_when_pass_aborts :
  let st := four_clients in
  let sch := joins_during 2 4 (closed_at 2) in
  let run := Interleaved.broadcast_to_channel sch room hello (Some 1) st in
  reachable (Server st {[1; 2; 3; 4]}) ∧
  member 3 room st ∧
  result_of run = Raise OtherException ∧
  sends (trace_of run) = [(2, hello, SendClosed)] ∧
  member 2 room (state_of run) ∧
  2 ∈ clients (state_of run).
Proof.
  intros st sch run. split; [|split; [|split; [|split; [|split]]]].
  - apply (run_ops_rtc [Connect 1; Connect 2; Connect 3; Connect 4;
                        Frame 1 (join_frame "room1");
                        Frame 2 (join_frame "room1");
                        Frame 3 (join_frame "room1")]).
    vm_compute. reflexivity.
  - exists {[1; 2; 3]}. split; [vm_compute; reflexivity|set_solver].
  - vm_compute. reflexivity.
  - vm_compute. reflexivity.
  - exists {[1; 2; 3; 4]}. split; [vm_compute; reflexivity|set_solver].
  - assert (clients (state_of run) = {[1; 2; 3; 4]}) as ->
      by (vm_compute; reflexivity).
    set_solver.
Qed.

(** ** rgba_to_hex *)

Import Color.

Section rgba.
Implicit Types d : gmap string pyval.

(** The dict branch reads the dict through three lookups only. *)
Lemma scaled_agree d1 d2 (k : string) :
  d1 !! k = d2 !! k → scaled d1 k = scaled d2 k.
Proof. unfold scaled, get0. by intros ->. Qed.

Lemma scaled_absent d (k : string) : d !! k = None → scaled d k = inr 0%Z.
Proof. unfold scaled, get0. by intros ->. Qed.

Lemma rgba_to_hex_black d :
  d !! "r" = None → d !! "g" = None → d !! "b" = None →
  rgba_to_hex (CDict d) = inr "#000000".
Proof.
  intros Hr Hg Hb. unfold rgba_to_hex. destruct (falsy (CDict d)); [done|].
  by rewrite !scaled_absent.
Qed.

Lemma rgba_to_hex_nonempty d :
  d ≠ ∅ →
  rgba_to_hex (CDict d) =
    bind_err (scaled d "r") (λ r,
    bind_err (scaled d "g") (λ g,
    bind_err (scaled d "b") (λ b,
    inr (hex_string r g b)))).
Proof.
  intros Hne. unfold rgba_to_hex, falsy. by rewrite bool_decide_eq_false_2.
Qed.

End rgba.

(** The cases of the repository's tests. *)
Example rgba_to_hex_dict :
  rgba_to_hex (CDict {["r" := PFloat 1; "g" := PFloat 0.5; "b" := PFloat 0;
                       "a" := PFloat 1]}) = inr "#ff7f00".
Proof. vm_compute. reflexivity. Qed.

Example rgba_to_hex_partial :
  rgba_to_hex (CDict {["r" := PFloat 1]}) = inr "#ff0000".
Proof. vm_compute. reflexivity. Qed.

(** C10: the result of [rgba_to_hex] on a dict is determined by what the
    dict holds under 'r', 'g' and 'b' (value or absence): two dicts that
    agree there give the same result, whatever else they hold; [None] and
    the empty dict give "#000000". *)
Theorem rgba_to_hex_depends_on_rgb_only (d1 d2 : gmap string pyval) :
  d1 !! "r" = d2 !! "r" → d1 !! "g" = d2 !! "g" → d1 !! "b" = d2 !! "b" →
  rgba_to_hex (CDict d1) = rgba_to_hex (CDict d2) ∧
  rgba_to_hex CNone = inr "#000000" ∧
  rgba_to_hex (CDict ∅) = inr "#000000".
Proof.
  intros Hr Hg Hb. split; [|by split].
  destruct (decide (d1 = ∅)) as [->|Hne1].
  - rewrite !lookup_empty in *.
    rewrite (rgba_to_hex_black d2) by done. done.
  - destruct (decide (d2 = ∅)) as [->|Hne2].
    + rewrite !lookup_empty in *.
      rewrite (rgba_to_hex_black d1) by done. done.
    + rewrite !rgba_to_hex_nonempty by done.
      by rewrite (scaled_agree d1 d2 "r"), (scaled_agree d1 d2 "g"),
        (scaled_agree d1 d2 "b").
Qed.

Lemma rgba_to_hex_depends_on_rgb_only_witness :
  rgba_to_hex (CDict orange) = rgba_to_hex (CDict orange_faint) ∧
  rgba_to_hex CNone = inr "#000000" ∧
  rgba_to_hex (CDict ∅) = inr "#000000".
Proof.
  apply (rgba_to_hex_depends_on_rgb_only orange orange_faint);
    vm_compute; reflexivity.
Defined.

(** * Further properties of the relay *)

(** ** Registry operations, as state transformers *)

Section registry.
Implicit Types (st : broker) (ws w : websocket) (channel : chan).

Lemma broker_eq st1 st2 :
  clients st1 = clients st2 →
  (∀ c, channels st1 !! c = channels st2 !! c) →
  st1 = st2.
Proof.
  destruct st1 as [cl1 chs1], st2 as [cl2 chs2]. simpl.
  intros -> Hch. f_equal. by apply map_eq.
Qed.

Lemma register_client_run ws st :
  register_client ws st =
    (Ret tt, Broker ({[ws]} ∪ clients st) (channels st),
     [Log (LogConnected ws (size ({[ws]} ∪ clients st)))]).
Proof. reflexivity. Qed.

Lemma join_channel_lookup ws channel st c :
  channels (state_of (join_channel ws channel st)) !! c
    = if decide (channel = c)
      then Some ({[ws]} ∪ default ∅ (channels st !! channel))
      else channels st !! c.
Proof.
  rewrite join_channel_run. unfold state_of. simpl.
  case_decide as Hc.
  - subst c. by rewrite lookup_insert_eq.
  - by rewrite lookup_insert_ne.
Qed.

Lemma join_channel_clients ws channel st :
  clients (state_of (join_channel ws channel st)) = clients st.
Proof. by rewrite join_channel_run. Qed.

Lemma unregister_client_lookup ws st c :
  channels (state_of (unregister_client ws st)) !! c
    = match channels st !! c with
      | Some members =>
          if decide (members ∖ {[ws]} = ∅) then None
          else Some (members ∖ {[ws]})
      | None => None
      end.
Proof. by destruct (unregister_client_state ws st) as [_ ->]. Qed.

Lemma unregister_client_clients ws st :
  clients (state_of (unregister_client ws st)) = clients st ∖ {[ws]}.
Proof. by destruct (unregister_client_state ws st) as [-> _]. Qed.

End registry.

(** X1: connecting and disconnecting at once is a round trip.  For a
    connection that is in neither container, on a state without empty
    channels, [register_client] followed by [unregister_client] gives the
    state back. *)
Theorem register_unregister_round_trip (ws : websocket) (st : broker) :
  ws ∉ clients st →
  map_Forall (λ _ (members : gset websocket), (ws ∉ members) ∧ (members ≠ ∅))
    (channels st) →
  state_of (unregister_client ws (state_of (register_client ws st))) = st.
Proof.
  intros Hcl Hch. apply broker_eq.
  - rewrite unregister_client_clients, register_client_run.
    unfold state_of. simpl. set_solver.
  - intros c. rewrite unregister_client_lookup, register_client_run.
    unfold state_of. simpl.
    destruct (channels st !! c) as [members|] eqn:E; [|done].
    destruct (Hch c members E) as [Hnot Hne].
    assert (members ∖ {[ws]} = members) as -> by set_solver.
    by rewrite decide_False.
Qed.

Lemma register_unregister_round_trip_witness :
  state_of (unregister_client 3 (state_of (register_client 3 two_in_room)))
    = two_in_room.
Proof.
  apply (register_unregister_round_trip 3 two_in_room).
  - vm_compute. intros H. discriminate H.
  - refine (bool_decide_unpack _ _). vm_compute. exact I.
Defined.

(** X2: [unregister_client] touches nobody else.  Every other connection
    is in [clients] afterwards exactly if it was before, and is a member of
    a channel afterwards exactly if it was before. *)
Theorem unregister_client_spares_others
    (ws w : websocket) (c : chan) (st : broker) :
  w ≠ ws →
  let st' := state_of (unregister_client ws st) in
  (w ∈ clients st' ↔ w ∈ clients st) ∧
  (member w c st' ↔ member w c st).
Proof.
  intros Hne st'. subst st'. split.
  - rewrite unregister_client_clients. set_solver.
  - unfold member. setoid_rewrite unregister_client_lookup. split.
    + intros (members' & Hl & Hin).
      destruct (channels st !! c) as [members|]; [|done].
      case_decide; [done|]. injection Hl as <-.
      exists members. split; [done|]. set_solver.
    + intros (members & Hl & Hin). rewrite Hl.
      exists (members ∖ {[ws]}).
      rewrite decide_False by set_solver. split; [done|]. set_solver.
Qed.

Lemma unregister_client_spares_others_witness :
  let st' := state_of (unregister_client 1 two_in_room) in
  (2 ∈ clients st' ↔ 2 ∈ clients two_in_room) ∧
  (member 2 room st' ↔ member 2 room two_in_room).
Proof.
  apply (unregister_client_spares_others 1 2 room two_in_room). lia.
Defined.

(** X3: after [unregister_client] no entry of [channels] has an empty
    member set, whatever the state before: entries that were already empty
    (left by a broadcast) are swept along with the ones the connection
    leaves empty.  A second [unregister_client] of the same connection then
    changes nothing. *)
Theorem unregister_client_sweeps_and_settles (ws : websocket) (st : broker) :
  let st' := state_of (unregister_client ws st) in
  no_empty_channel st' ∧
  (∀ c, channels st !! c = Some ∅ → channels st' !! c = None) ∧
  state_of (unregister_client ws st') = st'.
Proof.
  intros st'. subst st'. split; [|split].
  - intros c members. rewrite unregister_client_lookup.
    destruct (channels st !! c) as [m|]; [|done].
    case_decide; [done|]. by intros [= <-].
  - intros c Hc. rewrite unregister_client_lookup, Hc.
    rewrite decide_True; [done|]. set_solver.
  - apply broker_eq.
    + rewrite !unregister_client_clients. set_solver.
    + intros c. rewrite (unregister_client_lookup ws (state_of _)).
      rewrite unregister_client_lookup.
      destruct (channels st !! c) as [m|]; [|done].
      case_decide as Hm; [done|].
      assert (m ∖ {[ws]} ∖ {[ws]} = m ∖ {[ws]}) as -> by set_solver.
      by rewrite decide_False.
Qed.

(** X4: a join that is followed by the disconnect of the same connection
    leaves no trace in the state: the result is the one of the disconnect
    alone (a channel created by the join is deleted again). *)
Theorem join_then_unregister (ws : websocket) (channel : chan) (st : broker) :
  state_of (unregister_client ws (state_of (join_channel ws channel st)))
    = state_of (unregister_client ws st).
Proof.
  apply broker_eq.
  - by rewrite !unregister_client_clients, join_channel_clients.
  - intros c. rewrite !unregister_client_lookup, join_channel_lookup.
    case_decide as Hc.
    + subst c. destruct (channels st !! channel) as [m|]; simpl.
      * assert (({[ws]} ∪ m) ∖ {[ws]} = m ∖ {[ws]}) as -> by set_solver. done.
      * rewrite decide_True; [done|]. set_solver.
    + done.
Qed.

(** X5: joins commute.  Two joins, by the same or by different connections
    and to the same or to different channels, give the same state in either
    order. *)
Theorem join_channel_commutes
    (ws1 ws2 : websocket) (c1 c2 : chan) (st : broker) :
  state_of (join_channel ws2 c2 (state_of (join_channel ws1 c1 st)))
    = state_of (join_channel ws1 c1 (state_of (join_channel ws2 c2 st))).
Proof.
  apply broker_eq.
  - by rewrite !join_channel_clients.
  - intros c. rewrite !join_channel_lookup.
    repeat case_decide; simplify_eq; simpl; try done; f_equal; set_solver.
Qed.

(** ** What a broadcast does to the state *)

Section broadcast_state.
Implicit Types (st : broker) (ws w : websocket) (channel : chan).
Implicit Types (net : oracle) (message : json) (sender : option websocket).

Lemma broadcast_state net channel message sender st :
  state_of (broadcast_to_channel net channel message sender st)
    = match channels st !! channel with
      | None => st
      | Some members =>
          Broker (clients st ∖ failed net sender members)
            (<[channel := members ∖ failed net sender members]> (channels st))
      end.
Proof.
  destruct (channels st !! channel) as [members|] eqn:E.
  - by rewrite (broadcast_run _ _ _ _ _ _ E).
  - unfold broadcast_to_channel, bind, get, log, emit, state_of. simpl.
    by rewrite E.
Qed.

Lemma broadcast_result net channel message sender st :
  result_of (broadcast_to_channel net channel message sender st) = Ret tt.
Proof.
  destruct (channels st !! channel) as [members|] eqn:E.
  - by rewrite (broadcast_run _ _ _ _ _ _ E).
  - unfold broadcast_to_channel, bind, get, log, emit, result_of. simpl.
    by rewrite E.
Qed.

Lemma elem_of_failed net sender (members : gset websocket) w :
  w ∈ failed net sender members
    ↔ w ∈ members ∧ Some w ≠ sender ∧ net w ≠ SendOk.
Proof. unfold failed. rewrite elem_of_filter. tauto. Qed.

Lemma broadcast_lookup net channel message sender st c :
  channels (state_of (broadcast_to_channel net channel message sender st)) !! c
    = if decide (channel = c)
      then (λ members, members ∖ failed net sender members)
             <$> channels st !! channel
      else channels st !! c.
Proof.
  rewrite broadcast_state.
  destruct (channels st !! channel) as [members|] eqn:E; simpl.
  - case_decide as Hc.
    + subst c. by rewrite lookup_insert_eq.
    + by rewrite lookup_insert_ne.
  - case_decide as Hc; [by subst c|done].
Qed.

Lemma broadcast_clients net channel message sender st :
  clients (state_of (broadcast_to_channel net channel message sender st))
    = clients st ∖ default ∅ (failed net sender <$> channels st !! channel).
Proof.
  rewrite broadcast_state.
  destruct (channels st !! channel) as [members|]; simpl; [done|].
  set_solver.
Qed.

(** When nobody fails, nothing changes. *)
Lemma broadcast_quiet net channel message sender st :
  (∀ w, member w channel st → Some w ≠ sender → net w = SendOk) →
  state_of (broadcast_to_channel net channel message sender st) = st.
Proof.
  intros Hok. apply broker_eq.
  - rewrite broadcast_clients.
    destruct (channels st !! channel) as [members|] eqn:E; simpl; [|set_solver].
    assert (failed net sender members = ∅) as ->; [|set_solver].
    apply set_eq; intros w. rewrite elem_of_failed.
    split; [|set_solver]. intros (Hin & Hne & Hbad).
    destruct Hbad. apply Hok; [by exists members|done].
  - intros c. rewrite broadcast_lookup. case_decide as Hc; [|done].
    subst c. destruct (channels st !! channel) as [members|] eqn:E; [|done].
    simpl. f_equal.
    assert (failed net sender members = ∅) as ->; [|set_solver].
    apply set_eq; intros w. rewrite elem_of_failed.
    split; [|set_solver]. intros (Hin & Hne & Hbad).
    destruct Hbad. apply Hok; [by exists members|done].
Qed.



End broadcast_state.

(** X6: while nobody else changes the containers during the awaited
    sends, a broadcast in which every delivery succeeds returns normally
    and changes neither [clients] nor [channels]; every call of [send] it
    makes succeeded. *)
Theorem broadcast_without_failure_keeps_state
    (sch : schedule) (channel : chan) (message : json)
    (sender : option websocket) (st : broker) :
  calm sch →
  (∀ w, member w channel st → Some w ≠ sender → outcome sch w = SendOk) →
  let run := Interleaved.broadcast_to_channel sch channel message sender st in
  result_of run = Ret tt ∧
  state_of run = st ∧
  (∀ to payload r, (to, payload, r) ∈ sends (trace_of run) → r = SendOk).
Proof.
  intros Hcalm Hok run. subst run.
  rewrite interleaved_broadcast_calm by done.
  split; [apply broadcast_result|].
  split; [by apply broadcast_quiet|].
  intros to payload r Hin.
  destruct (channels st !! channel) as [members|] eqn:E.
  - rewrite (sends_broadcast _ _ _ _ _ _ E) in Hin.
    apply list_elem_of_fmap in Hin as (w & [= -> -> ->] & Hw).
    apply elem_of_targets in Hw as [Hin Hne].
    apply Hok; [by exists members|done].
  - unfold broadcast_to_channel, bind, get, log, emit, trace_of in Hin.
    simpl in Hin. rewrite E in Hin. simpl in Hin. by apply elem_of_nil in Hin.
Qed.

Lemma broadcast_without_failure_keeps_state_witness :
  let run :=
    Interleaved.broadcast_to_channel (undisturbed all_ok) room hello (Some 1)
      two_in_room in
  result_of run = Ret tt ∧
  state_of run = two_in_room ∧
  (∀ to payload r, (to, payload, r) ∈ sends (trace_of run) → r = SendOk).
Proof.
  apply (broadcast_without_failure_keeps_state (undisturbed all_ok) room hello
           (Some 1) two_in_room).
  - intros w st. reflexivity.
  - intros w _ _. reflexivity.
Defined.

(** X7: the frame of a broadcast.  Whatever the transports do, a broadcast
    creates and deletes no channel, changes no other channel, adds nobody
    to [clients] or to the channel, and keeps the sender and every
    connection whose transport works where they were. *)
Theorem broadcast_only_removes_failed
    (net : oracle) (channel : chan) (message : json)
    (sender : option websocket) (st : broker) :
  let st' := state_of (broadcast_to_channel net channel message sender st) in
  dom (channels st') = dom (channels st) ∧
  (∀ c, c ≠ channel → channels st' !! c = channels st !! c) ∧
  clients st' ⊆ clients st ∧
  (∀ w, member w channel st' → member w channel st) ∧
  (∀ w, sender = Some w ∨ net w = SendOk →
     (w ∈ clients st → w ∈ clients st') ∧
     (member w channel st → member w channel st')).
Proof.
  intros st'. subst st'. repeat split.
  - apply set_eq; intros c. rewrite !elem_of_dom, broadcast_lookup.
    case_decide as Hc; [|done]. subst c. by rewrite fmap_is_Some.
  - intros c Hc. rewrite broadcast_lookup. by rewrite decide_False.
  - rewrite broadcast_clients. set_solver.
  - intros w (members' & Hl & Hin). rewrite broadcast_lookup in Hl.
    rewrite decide_True in Hl by done.
    destruct (channels st !! channel) as [members|] eqn:E; [|done].
    injection Hl as <-. exists members. split; [done|]. set_solver.
  - intros Hin. rewrite broadcast_clients.
    destruct (channels st !! channel) as [members|]; simpl; [|set_solver].
    apply elem_of_difference. split; [done|].
    rewrite elem_of_failed. intros (_ & Hne & Hbad). destruct H; by subst.
  - intros (members & Hl & Hin). exists (members ∖ failed net sender members).
    rewrite broadcast_lookup, decide_True, Hl by done. split; [done|].
    apply elem_of_difference. split; [done|].
    rewrite elem_of_failed. intros (_ & Hne & Hbad). destruct H; by subst.
Qed.

(** X8: a broadcast settles the channel.  While nobody else changes the
    containers during the awaited sends, a second broadcast to the same
    channel from the same sender over the same transports (with any
    message) finds no failing member: all its deliveries succeed and it
    leaves the state of the first one unchanged. *)
Theorem broadcast_again_is_quiet
    (sch : schedule) (channel : chan) (message message' : json)
    (sender : option websocket) (st : broker) :
  calm sch →
  let st1 :=
    state_of (Interleaved.broadcast_to_channel sch channel message sender st) in
  let run := Interleaved.broadcast_to_channel sch channel message' sender st1 in
  state_of run = st1 ∧
  (∀ to payload r, (to, payload, r) ∈ sends (trace_of run) → r = SendOk).
Proof.
  intros Hcalm st1 run. subst run st1.
  rewrite !interleaved_broadcast_calm by done.
  set (net := outcome sch).
  set (st1 := state_of (broadcast_to_channel net channel message sender st)).
  assert (∀ w, member w channel st1 → Some w ≠ sender → net w = SendOk) as Hok.
  { intros w (members' & Hl & Hin) Hne. subst st1.
    rewrite broadcast_lookup, decide_True in Hl by done.
    destruct (channels st !! channel) as [members|]; [|done].
    injection Hl as <-. apply elem_of_difference in Hin as [Hin Hnot].
    rewrite elem_of_failed in Hnot.
    destruct (decide (net w = SendOk)); [done|]. by destruct Hnot. }
  split.
  - by apply broadcast_quiet.
  - intros to payload r Hin.
    destruct (channels st1 !! channel) as [members|] eqn:E.
    + rewrite (sends_broadcast _ _ _ _ _ _ E) in Hin.
      apply list_elem_of_fmap in Hin as (w & [= -> -> ->] & Hw).
      apply elem_of_targets in Hw as [Hin Hne].
      apply Hok; [by exists members|done].
    + unfold broadcast_to_channel, bind, get, log, emit, trace_of in Hin.
      simpl in Hin. rewrite E in Hin. simpl in Hin.
      by apply elem_of_nil in Hin.
Qed.

Lemma broadcast_again_is_quiet_witness :
  let sch := undisturbed (closed_at 2) in
  let st1 :=
    state_of (Interleaved.broadcast_to_channel sch room hello (Some 1)
                three_in_room) in
  let run := Interleaved.broadcast_to_channel sch room hello (Some 1) st1 in
  state_of run = st1 ∧
  (∀ to payload r, (to, payload, r) ∈ sends (trace_of run) → r = SendOk).
Proof.
  apply (broadcast_again_is_quiet (undisturbed (closed_at 2)) room hello hello
           (Some 1) three_in_room).
  intros w st. reflexivity.
Defined.



(** ** The connection handler, frame by frame *)

Section frames.
Implicit Types (st : broker) (ws w : websocket) (channel : chan).
Implicit Types (net : oracle) (data : json) (fields : list (string * json)).

Lemma broadcast_sends_elem net channel data (sender : option websocket) st
    to payload r :
  (to, payload, r) ∈ sends (trace_of (broadcast_to_channel net channel data sender st)) →
  payload = data ∧ Some to ≠ sender.
Proof.
  intros Hin. destruct (channels st !! channel) as [members|] eqn:E.
  - rewrite (sends_broadcast _ _ _ _ _ _ E) in Hin.
    apply list_elem_of_fmap in Hin as (w & [= -> -> ->] & Hw).
    by apply elem_of_targets in Hw as [_ ?].
  - unfold broadcast_to_channel, bind, get, log, emit, trace_of in Hin.
    simpl in Hin. rewrite E in Hin. simpl in Hin. by apply elem_of_nil in Hin.
Qed.

(** Whatever happens inside the inner [try], the iteration ends normally
    and the [except] clauses leave the state alone. *)
Lemma handle_frame_result net ws (loaded : res json) st :
  result_of (handle_frame net ws loaded st) = Ret tt.
Proof.
  unfold handle_frame, try_except, result_of.
  destruct (bind (lift loaded) _ st) as [[[[]|e] st1] tr]; [done|].
  destruct e; unfold bind, log, emit, try_except, send, ret, raise; simpl;
    try done.
  by destruct (net ws).
Qed.

Lemma handle_frame_state net ws data st :
  state_of (handle_frame net ws (Ret data) st)
    = state_of (dispatch net ws data st).
Proof.
  unfold handle_frame, try_except, state_of, lift.
  unfold bind at 1. unfold ret at 1. simpl.
  destruct (dispatch net ws data st) as [[[[]|e] st1] tr]; [done|].
  destruct e; unfold bind, log, emit, try_except, send, ret, raise; simpl;
    try done.
  by destruct (net ws).
Qed.

Lemma handle_frame_state_raise net ws e st :
  state_of (handle_frame net ws (Raise e) st) = st.
Proof.
  unfold handle_frame, try_except, state_of, lift, bind, raise, log, emit,
    send, ret.
  destruct e; simpl; try done. by destruct (net ws).
Qed.

Lemma handle_frame_sends net ws data st :
  result_of (dispatch net ws data st) ≠ Raise JSONDecodeError →
  sends (trace_of (handle_frame net ws (Ret data) st))
    = sends (trace_of (dispatch net ws data st)).
Proof.
  unfold handle_frame, try_except, trace_of, result_of, lift.
  unfold bind at 1. unfold ret at 1. simpl.
  destruct (dispatch net ws data st) as [[[[]|e] st1] tr]; simpl.
  - done.
  - intros He.
    destruct e; [|done|]; unfold log, emit; simpl;
      by rewrite sends_app, app_nil_r.
Qed.

(** The three effects a frame can have. *)
Lemma dispatch_outcome net ws data st :
  let run := dispatch net ws data st in
  (state_of run = st ∨
   (∃ c, state_of run = state_of (join_channel ws c st)) ∨
   (∃ c, state_of run = state_of (broadcast_to_channel net c data (Some ws) st))) ∧
  (∀ to payload r, (to, payload, r) ∈ sends (trace_of run) →
     to = ws ∨ (payload = data ∧ to ≠ ws)) ∧
  result_of run ≠ Raise JSONDecodeError.
Proof.
  intros run. subst run. unfold state_of, trace_of, result_of.
  destruct (dispatch net ws data st) as [[r0 st'] tr] eqn:Hd. simpl.
  assert (∀ reply outcome,
            (r0 = Ret tt ∨ r0 = Raise ConnectionClosed ∨ r0 = Raise OtherException) →
            st' = st → sends tr = [(ws, reply, outcome)] →
            (st' = st ∨
             (∃ c, st' = (join_channel ws c st).1.2) ∨
             (∃ c, st' = (broadcast_to_channel net c data (Some ws) st).1.2)) ∧
            (∀ to payload r, (to, payload, r) ∈ sends tr →
               to = ws ∨ (payload = data ∧ to ≠ ws)) ∧
            r0 ≠ Raise JSONDecodeError) as Hreply.
  { intros reply outcome Hr -> ->. split; [by left|]. split.
    - intros to payload r Hin. apply list_elem_of_singleton in Hin.
      injection Hin as -> _ _. by left.
    - by destruct Hr as [->|[->| ->]]. }
  assert ((r0 = Ret tt ∨ r0 = Raise OtherException) →
          st' = st → sends tr = [] →
          (st' = st ∨
           (∃ c, st' = (join_channel ws c st).1.2) ∨
           (∃ c, st' = (broadcast_to_channel net c data (Some ws) st).1.2)) ∧
          (∀ to payload r, (to, payload, r) ∈ sends tr →
             to = ws ∨ (payload = data ∧ to ≠ ws)) ∧
          r0 ≠ Raise JSONDecodeError) as Hsilent.
  { intros Hr -> ->. split; [by left|]. split.
    - intros to payload r Hin. by apply elem_of_nil in Hin.
    - by destruct Hr as [->| ->]. }
  destruct data as [| | | | |fields];
    try (unfold dispatch, py_get, py_get_default, bind, log, emit, raise in Hd;
         simpl in Hd; injection Hd as <- <- <-; apply Hsilent; auto).
  unfold dispatch, py_get, py_get_default in Hd.
  unfold bind at 1 in Hd. unfold log at 1, emit at 1 in Hd.
  unfold bind at 1 in Hd. unfold ret at 1 in Hd.
  destruct (is_str (default JNull (assoc_get "type" fields)) "join").
  { unfold bind at 1 in Hd. unfold ret at 1 in Hd.
    destruct (truthy (default JNull (assoc_get "channel" fields))).
    - unfold hash_key in Hd.
      destruct (chan_of_json (default JNull (assoc_get "channel" fields)))
        as [c|].
      + unfold bind, ret, send, emit, log, raise in Hd.
        rewrite join_channel_run in Hd. simpl in Hd.
        destruct (net ws); simpl in Hd; injection Hd as <- <- <-;
          (split; [right; left; exists c; by rewrite join_channel_run|]);
          (split; [|done]); intros to payload r Hin;
          apply list_elem_of_singleton in Hin; injection Hin as -> _ _;
          by left.
      + unfold bind, raise in Hd. simpl in Hd. injection Hd as <- <- <-.
        apply Hsilent; auto.
    - unfold bind, send, emit, ret, raise in Hd. simpl in Hd.
      destruct (net ws); simpl in Hd; injection Hd as <- <- <-;
        eapply Hreply; eauto. }
  destruct (is_str (default JNull (assoc_get "type" fields)) "message").
  { unfold bind at 1 in Hd. unfold ret at 1 in Hd.
    destruct (truthy (default JNull (assoc_get "channel" fields))).
    - unfold hash_key in Hd.
      destruct (chan_of_json (default JNull (assoc_get "channel" fields)))
        as [c|].
      + unfold bind at 1 in Hd. unfold bind at 1 in Hd. unfold ret at 1 in Hd.
        unfold bind at 1 in Hd. unfold get at 1 in Hd. unfold ret at 1 in Hd.
        destruct (decide (is_Some (channels st !! c))).
        * pose proof (broadcast_result net c (JObj fields) (Some ws) st) as Hr.
          pose proof (broadcast_sends_elem net c (JObj fields) (Some ws) st)
            as Hs.
          unfold result_of, trace_of in Hr, Hs.
          destruct (broadcast_to_channel net c (JObj fields) (Some ws) st)
            as [[r' st1] tr'] eqn:Hb.
          simpl in *. subst r'. injection Hd as <- <- <-.
          split; [right; right; exists c; by rewrite Hb|]. split; [|done].
          intros to payload r Hin. right.
          destruct (Hs to payload r Hin) as [-> Hne]. split; [done|congruence].
        * unfold bind, send, emit, ret, raise in Hd. simpl in Hd.
          destruct (net ws); simpl in Hd; injection Hd as <- <- <-;
            eapply Hreply; eauto.
      + unfold bind, raise in Hd. simpl in Hd. injection Hd as <- <- <-.
        apply Hsilent; auto.
    - unfold bind, send, emit, ret, raise in Hd. simpl in Hd.
      destruct (net ws); simpl in Hd; injection Hd as <- <- <-;
        eapply Hreply; eauto. }
  destruct (py_in "id" (JObj fields) && py_in "message" (JObj fields));
    unfold bind, log, emit, ret in Hd; simpl in Hd; injection Hd as <- <- <-;
    apply Hsilent; auto.
Qed.

End frames.

Section loop.
Implicit Types (st : broker) (ws w : websocket) (frames : list inbound).

Lemma receive_loop_cons ws (f : inbound) frames st :
  receive_loop ws (f :: frames) st =
    (let first := handle_frame (net f) ws (loaded f) st in
     let others := receive_loop ws frames (state_of first) in
     (result_of others, state_of others, trace_of first ++ trace_of others)).
Proof.
  cbn [receive_loop]. unfold bind.
  pose proof (handle_frame_result (net f) ws (loaded f) st) as Hr.
  unfold result_of, state_of, trace_of in *.
  destruct (handle_frame (net f) ws (loaded f) st) as [[r st1] tr1].
  simpl in *. subst r.
  by destruct (receive_loop ws frames st1) as [[r2 st2] tr2].
Qed.

Lemma handle_frame_state_cases net ws (loaded : res json) st :
  let st' := state_of (handle_frame net ws loaded st) in
  st' = st ∨
  (∃ c, st' = state_of (join_channel ws c st)) ∨
  (∃ c data, loaded = Ret data ∧
     st' = state_of (broadcast_to_channel net c data (Some ws) st)).
Proof.
  intros st'. subst st'. destruct loaded as [data|e].
  - rewrite handle_frame_state.
    destruct (dispatch_outcome net ws data st) as [[H|[H|[c H]]] _]; eauto.
    right. right. by exists c, data.
  - left. apply handle_frame_state_raise.
Qed.

Lemma receive_loop_result ws frames st :
  result_of (receive_loop ws frames st) = Ret tt.
Proof.
  revert st. induction frames as [|f frames IH]; intros st; [done|].
  rewrite receive_loop_cons. apply IH.
Qed.

Lemma handle_client_run ws frames (e : ending) st :
  ∃ tr,
    handle_client ws frames e st
      = (match e with
         | IterationCancelled => CancelledErrorRaised
         | _ => Returned
         end,
         state_of (unregister_client ws
           (state_of (receive_loop ws frames
              (state_of (register_client ws st))))),
         tr).
Proof.
  unfold handle_client. rewrite !register_client_run. cbn [state_of fst snd].
  set (st1 := Broker ({[ws]} ∪ clients st) (channels st)).
  pose proof (receive_loop_result ws frames st1) as Hloop.
  unfold result_of, state_of in *.
  destruct (receive_loop ws frames st1) as [[r st2] tr2]. simpl in *.
  subst r.
  destruct (unregister_client ws st2) as [[r3 st3] tr3]. simpl.
  destruct e; by eexists.
Qed.

Lemma unregister_client_result ws st :
  result_of (unregister_client ws st) = Ret tt.
Proof.
  unfold unregister_client, bind, get, put, log, emit, result_of. simpl.
  by rewrite remove_channels_run.
Qed.

End loop.

(** X10: nothing a client sends and nothing the transports do ends the
    receive loop: the loop returns normally after the last frame, and a
    sequence of frames is handled as its first part followed by the rest,
    from the state the first part left. *)
Theorem receive_loop_handles_every_frame
    (ws : websocket) (fs1 fs2 : list inbound) (st : broker) :
  let first := receive_loop ws fs1 st in
  let rest := receive_loop ws fs2 (state_of first) in
  receive_loop ws (fs1 ++ fs2) st
    = (Ret tt, state_of rest, trace_of first ++ trace_of rest).
Proof.
  revert st. induction fs1 as [|f fs1 IH]; intros st first rest;
    subst first rest.
  - assert (∀ st0, result_of (receive_loop ws fs2 st0) = Ret tt) as Hres.
    { induction fs2 as [|f fs2 IH2]; intros st0; [done|].
      rewrite receive_loop_cons. apply IH2. }
    simpl. unfold ret, state_of, trace_of. simpl.
    specialize (Hres st). unfold result_of in Hres.
    destruct (receive_loop ws fs2 st) as [[r st'] tr]. simpl in *. by subst r.
  - rewrite <-app_comm_cons, !receive_loop_cons. cbn zeta.
    rewrite IH. unfold result_of, state_of, trace_of. simpl.
    by rewrite app_assoc.
Qed.

(** X11: a join frame with a non-empty channel name makes the sender a
    member of the channel and is acknowledged to the sender alone, by one
    call of [send]; the membership holds even when that call fails. *)
Theorem join_frame_joins_and_acknowledges
    (net : oracle) (ws : websocket) (fields : list (string * json))
    (name : string) (st : broker) :
  assoc_get "type" fields = Some (JStr "join") →
  assoc_get "channel" fields = Some (JStr name) →
  name ≠ "" →
  let run := handle_frame net ws (Ret (JObj fields)) st in
  state_of run = state_of (join_channel ws (ChanStr name) st) ∧
  member ws (ChanStr name) (state_of run) ∧
  sends (trace_of run) = [(ws, join_ack (JStr name), net ws)].
Proof.
  intros Hty Hch Hname run. subst run.
  apply String.eqb_neq in Hname.
  assert (state_of (handle_frame net ws (Ret (JObj fields)) st)
            = state_of (join_channel ws (ChanStr name) st) ∧
          sends (trace_of (handle_frame net ws (Ret (JObj fields)) st))
            = [(ws, join_ack (JStr name), net ws)]) as [Hst Hsends].
  { unfold handle_frame, try_except, dispatch, bind, lift, ret, log, emit,
      py_get, py_get_default, hash_key, get, send, raise,
      result_of, state_of, trace_of.
    cbn -[join_channel]. rewrite Hty, Hch.
    cbn -[join_channel]. rewrite Hname.
    cbn -[join_channel]. rewrite join_channel_run.
    by destruct (net ws). }
  split; [done|]. split; [|done].
  rewrite Hst. unfold member. rewrite join_channel_lookup, decide_True by done.
  eexists. split; [done|]. set_solver.
Qed.

Lemma join_frame_joins_and_acknowledges_witness :
  let fields := [("type", JStr "join"); ("channel", JStr "room2")] in
  let run := handle_frame (closed_at 1) 1 (Ret (JObj fields)) two_in_room in
  state_of run = state_of (join_channel 1 (ChanStr "room2") two_in_room) ∧
  member 1 (ChanStr "room2") (state_of run) ∧
  sends (trace_of run) = [(1, join_ack (JStr "room2"), closed_at 1 1)].
Proof.
  apply (join_frame_joins_and_acknowledges (closed_at 1) 1
           [("type", JStr "join"); ("channel", JStr "room2")] "room2"
           two_in_room); [reflexivity|reflexivity|discriminate].
Defined.

(** X12: a join frame whose channel is missing or falsy (null, empty
    string, 0, false, empty list or object) is answered by the
    "Channel name is required" reply to the sender alone and changes
    nothing. *)
Theorem join_frame_without_channel
    (net : oracle) (ws : websocket) (fields : list (string * json))
    (st : broker) :
  assoc_get "type" fields = Some (JStr "join") →
  truthy (default JNull (assoc_get "channel" fields)) = false →
  let run := handle_frame net ws (Ret (JObj fields)) st in
  state_of run = st ∧
  sends (trace_of run) = [(ws, channel_required, net ws)].
Proof.
  intros Hty Hch run. subst run.
  unfold handle_frame, try_except, dispatch, bind, lift, ret, log, emit,
    py_get, py_get_default, hash_key, get, send, raise,
    result_of, state_of, trace_of.
  simpl. rewrite Hty. simpl. rewrite Hch. simpl.
  by destruct (net ws).
Qed.

Lemma join_frame_without_channel_witness :
  let fields := [("type", JStr "join"); ("channel", JStr "")] in
  let run := handle_frame all_ok 1 (Ret (JObj fields)) two_in_room in
  state_of run = two_in_room ∧
  sends (trace_of run) = [(1, channel_required, all_ok 1)].
Proof.
  apply (join_frame_without_channel all_ok 1
           [("type", JStr "join"); ("channel", JStr "")] two_in_room);
    reflexivity.
Defined.

(** X13: an object frame whose type is neither "join" nor "message" (a
    direct response carrying "id" and "message", or anything else) is only
    logged: no call of [send], no change of state. *)
Theorem other_frames_are_only_logged
    (net : oracle) (ws : websocket) (fields : list (string * json))
    (st : broker) :
  is_str (default JNull (assoc_get "type" fields)) "join" = false →
  is_str (default JNull (assoc_get "type" fields)) "message" = false →
  let run := handle_frame net ws (Ret (JObj fields)) st in
  state_of run = st ∧
  sends (trace_of run) = [] ∧
  (∃ record, trace_of run = [Log (LogReceived ws (JObj fields)); Log record] ∧
     level_of record ≠ ERROR).
Proof.
  intros Hj Hm run. subst run.
  unfold handle_frame, try_except, dispatch, bind, lift, ret, log, emit,
    py_get, py_get_default, hash_key, get, send, raise,
    result_of, state_of, trace_of.
  simpl. rewrite Hj, Hm.
  destruct (_ && _); simpl;
    (split; [done|]); (split; [done|]); eexists; (split; [done|]); done.
Qed.

Lemma other_frames_are_only_logged_witness :
  let fields := [("id", JStr "x"); ("message", JObj [("result", JInt 1)])] in
  let run := handle_frame all_ok 1 (Ret (JObj fields)) two_in_room in
  state_of run = two_in_room ∧
  sends (trace_of run) = [] ∧
  (∃ record, trace_of run = [Log (LogReceived 1 (JObj fields)); Log record] ∧
     level_of record ≠ ERROR).
Proof.
  apply (other_frames_are_only_logged all_ok 1
           [("id", JStr "x"); ("message", JObj [("result", JInt 1)])]
           two_in_room); reflexivity.
Defined.

(** X14: a frame that is valid JSON but not an object (a list, a string, a
    number, true, false, null) gets no reply at all, unlike a frame that
    is not JSON: the handler logs an ERROR record and changes nothing. *)
Theorem non_object_frame_gets_no_reply
    (net : oracle) (ws : websocket) (data : json) (st : broker) :
  (∀ fields, data ≠ JObj fields) →
  handle_frame net ws (Ret data) st
    = (Ret tt, st,
       [Log (LogReceived ws data); Log (LogHandlerError ws OtherException)]) ∧
  level_of (LogHandlerError ws OtherException) = ERROR.
Proof.
  intros Hnot. split; [|done].
  destruct data as [| | | | |fields]; try reflexivity.
  by destruct (Hnot fields).
Qed.

Lemma non_object_frame_gets_no_reply_witness :
  handle_frame all_ok 1 (Ret (JArr [JInt 1])) two_in_room
    = (Ret tt, two_in_room,
       [Log (LogReceived 1 (JArr [JInt 1]));
        Log (LogHandlerError 1 OtherException)]) ∧
  level_of (LogHandlerError 1 OtherException) = ERROR.
Proof.
  apply (non_object_frame_gets_no_reply all_ok 1 (JArr [JInt 1]) two_in_room).
  intros fields. discriminate.
Defined.

(** X15: a join or message frame whose channel is a non-empty list or
    object (unhashable as a dict key) gets no reply either: an ERROR record
    is logged, nothing is sent, nobody joins and nothing is broadcast. *)
Theorem unhashable_channel_gets_no_reply
    (net : oracle) (ws : websocket) (fields : list (string * json))
    (st : broker) :
  is_str (default JNull (assoc_get "type" fields)) "join"
    || is_str (default JNull (assoc_get "type" fields)) "message" = true →
  truthy (default JNull (assoc_get "channel" fields)) = true →
  chan_of_json (default JNull (assoc_get "channel" fields)) = None →
  handle_frame net ws (Ret (JObj fields)) st
    = (Ret tt, st,
       [Log (LogReceived ws (JObj fields));
        Log (LogHandlerError ws OtherException)]).
Proof.
  intros Hty Htruthy Hkey.
  unfold handle_frame, try_except, dispatch, bind, lift, ret, log, emit,
    py_get, py_get_default, hash_key, get, send, raise.
  simpl.
  destruct (is_str (default JNull (assoc_get "type" fields)) "join");
    simpl in *.
  - rewrite Htruthy, Hkey. reflexivity.
  - rewrite Hty, Htruthy, Hkey. reflexivity.
Qed.

Lemma unhashable_channel_gets_no_reply_witness :
  let fields := [("type", JStr "join"); ("channel", JArr [JStr "room1"])] in
  handle_frame all_ok 1 (Ret (JObj fields)) two_in_room
    = (Ret tt, two_in_room,
       [Log (LogReceived 1 (JObj fields));
        Log (LogHandlerError 1 OtherException)]).
Proof.
  apply (unhashable_channel_gets_no_reply all_ok 1
           [("type", JStr "join"); ("channel", JArr [JStr "room1"])]
           two_in_room); reflexivity.
Defined.

(** X16: what a frame can do at all.  Handling one frame of connection
    [ws], whatever its content, leaves the state as it was, or is a
    [join_channel] of [ws], or is a [broadcast_to_channel] of the frame's
    own data with [ws] as sender; and every call of [send] it makes either
    addresses [ws] itself or hands the frame's data, unchanged, to another
    connection. *)
Theorem handle_frame_effects
    (net : oracle) (ws : websocket) (loaded : res json) (st : broker) :
  let run := handle_frame net ws loaded st in
  (state_of run = st ∨
   (∃ c, state_of run = state_of (join_channel ws c st)) ∨
   (∃ c data, loaded = Ret data ∧
      state_of run = state_of (broadcast_to_channel net c data (Some ws) st))) ∧
  (∀ to payload r, (to, payload, r) ∈ sends (trace_of run) →
     to = ws ∨ (loaded = Ret payload ∧ to ≠ ws)).
Proof.
  intros run. subst run. split; [apply handle_frame_state_cases|].
  intros to payload r Hin. destruct loaded as [data|e].
  - destruct (dispatch_outcome net ws data st) as (_ & Hs & Hr).
    rewrite handle_frame_sends in Hin by done.
    destruct (Hs to payload r Hin) as [?|[-> ?]]; auto.
  - left.
    unfold handle_frame, try_except, lift, bind, raise, log, emit, send, ret,
      trace_of in Hin.
    destruct e; simpl in Hin; try (by apply elem_of_nil in Hin).
    destruct (net ws); simpl in Hin;
      apply list_elem_of_singleton in Hin; by injection Hin as -> _ _.
Qed.

(** ** Connections over their lifetime *)

(** X17: in every reachable state of the relay, whatever is in [clients]
    or in a channel is a connection whose handler is still running: once a
    handler has finished, the containers hold no reference to its
    connection. *)
Theorem containers_hold_running_connections_only (s : server) :
  reachable s →
  clients (state s) ⊆ running s ∧
  (∀ w c, member w c (state s) → w ∈ running s).
Proof.
  unfold reachable. intros Hreach. pattern s.
  eapply rtc_ind_r; [| |exact Hreach]; clear s Hreach.
  - split; [set_solver|]. intros w c (members & Hl & _).
    simpl in Hl. by rewrite lookup_empty in Hl.
  - intros s1 s2 Hprev [o Hstep] IH.
    destruct IH as [IHc IHm]. destruct o as [ws|ws f|ws]; simpl in Hstep.
    + case_decide as Hfresh; [|done]. injection Hstep as <-. simpl. split.
      * set_solver.
      * intros w c Hmem. apply elem_of_union_r. by apply (IHm w c).
    + case_decide as Hrun; [|done]. injection Hstep as <-. simpl.
      destruct (handle_frame_state_cases (net f) ws (loaded f) (state s1))
        as [->|[[c0 ->]|(c0 & data & _ & ->)]].
      * done.
      * split; [by rewrite join_channel_clients|].
        intros w c (members & Hl & Hin).
        rewrite join_channel_lookup in Hl. case_decide as Hc.
        -- injection Hl as <-. apply elem_of_union in Hin as [Hin|Hin].
           ++ apply elem_of_singleton in Hin. by subst w.
           ++ destruct (channels (state s1) !! c0) as [m|] eqn:E;
                simpl in Hin; [|set_solver].
              apply (IHm w c0). by exists m.
        -- apply (IHm w c). by exists members.
      * split.
        -- rewrite broadcast_clients. set_solver.
        -- intros w c (members & Hl & Hin).
           rewrite broadcast_lookup in Hl. case_decide as Hc.
           ++ subst c.
              destruct (channels (state s1) !! c0) as [m|] eqn:E; [|done].
              injection Hl as <-. apply (IHm w c0). exists m.
              split; [done|]. set_solver.
           ++ apply (IHm w c). by exists members.
    + case_decide as Hrun; [|done]. injection Hstep as <-. simpl. split.
      * rewrite unregister_client_clients. set_solver.
      * intros w c (members & Hl & Hin).
        rewrite unregister_client_lookup in Hl.
        destruct (channels (state s1) !! c) as [m|] eqn:E; [|done].
        case_decide; [done|]. injection Hl as <-.
        apply elem_of_difference in Hin as [Hin Hne].
        apply elem_of_difference. split; [|done].
        apply (IHm w c). by exists m.
Qed.

Lemma containers_hold_running_connections_only_witness :
  let s := Server (Broker {[2]} ∅) {[2]} in
  clients (state s) ⊆ running s ∧
  (∀ w c, member w c (state s) → w ∈ running s).
Proof.
  apply (containers_hold_running_connections_only
           (Server (Broker {[2]} ∅) {[2]})).
  apply (run_ops_rtc [Connect 1; Connect 2; Frame 1 (join_frame "room1");
                      Disconnect 1]).
  vm_compute. reflexivity.
Defined.

(** X18: a whole connection.  Whatever the frames and however the message
    iterator ends, [handle_client] ends in the state [unregister_client]
    leaves after the receive loop: the connection is in neither container
    and no channel is empty.  It returns normally when the iterator ends or
    raises an exception below [Exception]; when the handler task is
    cancelled, the [finally] clause still runs and CancelledError leaves
    the handler. *)
Theorem handle_client_cleans_up
    (ws : websocket) (frames : list inbound) (e : ending) (st : broker) :
  let st' :=
    state_of (unregister_client ws
      (state_of (receive_loop ws frames (state_of (register_client ws st))))) in
  (∃ tr,
     handle_client ws frames e st
       = (match e with
          | IterationCancelled => CancelledErrorRaised
          | _ => Returned
          end, st', tr)) ∧
  (ws ∉ clients st') ∧
  (∀ c, ¬ member ws c st') ∧
  no_empty_channel st'.
Proof.
  intros st'. split; [apply handle_client_run|]. subst st'.
  split; [rewrite unregister_client_clients; set_solver|]. split.
  - intros c (members & Hl & Hin). rewrite unregister_client_lookup in Hl.
    destruct (channels _ !! c) as [m|]; [|done].
    case_decide; [done|]. injection Hl as <-. set_solver.
  - intros c members. rewrite unregister_client_lookup.
    destruct (channels _ !! c) as [m|]; [|done].
    case_decide; [done|]. by intros [= <-].
Qed.

(** ** The shape of a colour string *)

Section colour_string.

(** A component in 0..255 is printed as two digits that read back. *)
Lemma format_02x_byte (k : nat) :
  k < 256 →
  ∃ a b, format_02x (Z.of_nat k) = String a (String b EmptyString) ∧
         N.of_hex_uint <$> NilZero.uint_of_string (String a (String b EmptyString))
           = Some (N.of_nat k).
Proof.
  intros Hk.
  do 256 (destruct k as [|k]; [vm_compute; by eexists _, _|]). lia.
Qed.

End colour_string.

(** X19: when the three components of a dict come out in 0..255, the
    result is '#' followed by three two-digit hexadecimal fields (seven
    characters), and the fields read back as the components.  (Nothing
    clamps a component outside that range.) *)
Theorem rgba_to_hex_in_range (d : gmap string pyval) (r g b : Z) :
  d ≠ ∅ →
  scaled d "r" = inr r → scaled d "g" = inr g → scaled d "b" = inr b →
  (0 ≤ r ≤ 255)%Z → (0 ≤ g ≤ 255)%Z → (0 ≤ b ≤ 255)%Z →
  ∃ s, rgba_to_hex (CDict d) = inr s ∧
       String.length s = 7 ∧
       String.prefix "#" s = true ∧
       field s 0 = Some (Z.to_N r) ∧
       field s 1 = Some (Z.to_N g) ∧
       field s 2 = Some (Z.to_N b).
Proof.
  intros Hne Hr Hg Hb Hrr Hgr Hbr.
  rewrite rgba_to_hex_nonempty by done. rewrite Hr, Hg, Hb. simpl.
  eexists. split; [done|].
  destruct (format_02x_byte (Z.to_nat r)) as (r1 & r2 & Er & Dr); [lia|].
  destruct (format_02x_byte (Z.to_nat g)) as (g1 & g2 & Eg & Dg); [lia|].
  destruct (format_02x_byte (Z.to_nat b)) as (b1 & b2 & Eb & Db); [lia|].
  rewrite Z2Nat.id in Er, Eg, Eb by lia.
  rewrite <-Z_N_nat, N2Nat.id in Dr, Dg, Db.
  unfold hex_string, field. rewrite Er, Eg, Eb.
  unfold String.append. cbn -[NilZero.uint_of_string N.of_hex_uint].
  by rewrite Dr, Dg, Db.
Qed.

Lemma rgba_to_hex_in_range_witness :
  ∃ s, rgba_to_hex (CDict orange) = inr s ∧
       String.length s = 7 ∧
       String.prefix "#" s = true ∧
       field s 0 = Some (Z.to_N 255) ∧
       field s 1 = Some (Z.to_N 127) ∧
       field s 2 = Some (Z.to_N 0).
Proof.
  apply (rgba_to_hex_in_range orange 255 127 0);
    try (vm_compute; reflexivity); try lia.
  intros H. apply (f_equal (λ m : gmap string pyval, m !! "r")) in H.
  vm_compute in H. discriminate H.
Defined.

(** ** Two more edges of the registry and of the handler *)

(** X20: a channel survives the disconnect of a connection exactly if
    somebody else is a member of it. *)
Theorem channel_survives_iff_other_member
    (ws : websocket) (c : chan) (st : broker) :
  is_Some (channels (state_of (unregister_client ws st)) !! c)
    ↔ ∃ w, w ≠ ws ∧ member w c st.
Proof.
  rewrite unregister_client_lookup. unfold member. split.
  - destruct (channels st !! c) as [m|] eqn:E; [|by intros [? ?]].
    case_decide as Hm; [by intros [? ?]|]. intros _.
    apply set_choose_L in Hm as [w Hw]. exists w.
    split; [set_solver|]. exists m. split; [done|]. set_solver.
  - intros (w & Hne & m & -> & Hin).
    rewrite decide_False by set_solver. by eexists.
Qed.

(** X21: a message frame whose channel is missing or falsy, or is a key
    that [channels] does not hold, is answered to its sender alone by the
    error reply, which carries the frame's "id" (null when absent) and
    names the channel as Python prints it; nothing else is sent and the
    state is unchanged. *)
Theorem message_frame_without_target
    (net : oracle) (ws : websocket) (fields : list (string * json))
    (st : broker) :
  assoc_get "type" fields = Some (JStr "message") →
  let channel := default JNull (assoc_get "channel" fields) in
  truthy channel = false ∨
    (∃ c, chan_of_json channel = Some c ∧ channels st !! c = None) →
  let run := handle_frame net ws (Ret (JObj fields)) st in
  state_of run = st ∧
  sends (trace_of run)
    = [(ws,
        JObj [("id", default JNull (assoc_get "id" fields));
              ("error",
                JStr ("Channel '" +:+ py_str channel
                        +:+ "' not found or not joined"))],
        net ws)].
Proof.
  intros Hty channel Hcase run. subst run channel.
  unfold handle_frame, try_except, dispatch, bind, lift, ret, log, emit,
    py_get, py_get_default, hash_key, get, send, raise, not_joined,
    result_of, state_of, trace_of.
  simpl. rewrite Hty. simpl.
  destruct Hcase as [Hfalsy|(c & Hkey & Hnone)].
  - rewrite Hfalsy. simpl. by destruct (net ws).
  - destruct (truthy (default JNull (assoc_get "channel" fields))); simpl.
    + rewrite Hkey. simpl. rewrite Hnone. simpl. by destruct (net ws).
    + by destruct (net ws).
Qed.

Lemma message_frame_without_target_witness :
  let fields := [("type", JStr "message"); ("id", JStr "x")] in
  let run := handle_frame all_ok 1 (Ret (JObj fields)) two_in_room in
  state_of run = two_in_room ∧
  sends (trace_of run)
    = [(1,
        JObj [("id", JStr "x");
              ("error", JStr "Channel 'None' not found or not joined")],
        all_ok 1)].
Proof.
  apply (message_frame_without_target all_ok 1
           [("type", JStr "message"); ("id", JStr "x")] two_in_room).
  - reflexivity.
  - left. reflexivity.
Defined.

